(** * async-stack-tracer: the stealth state machine and the Tetris engine

    A shallow embedding of [src/async_stack_tracer.py].

    Conventions of the embedding
    - [time.time()] is an input: every method that samples the clock takes the
      sampled value [now] as an argument.
    - Python floats that hold seconds are modelled as exact rationals [Q]; the
      code only subtracts, multiplies by a literal, and compares them.
    - [random.choice] reads from a source of kinds that is part of the game
      state, together with the number of draws made so far.
    - A Python exception is a result of its own ([Raise]): list indexing out
      of range, [%] by zero, and the recursion limit of [spawn_piece] and
      [game_over]; the theorems show that none is raised on a HEIGHT x WIDTH
      grid with pieces from [SHAPES].
    - Terminal handles ([stdscr]) and drawing code carry no engine state and
      are left out. *)

From Stdlib Require Import ZArith QArith Bool String Lia Lqa.
From stdpp Require Import base list.

Open Scope Z_scope.

(** ** StealthManager (lines 28-76) *)

Module StealthManager.

(** Instance attributes set by [__init__]. *)
Record t := Mk {
  hidden : bool;
  awaiting_double : bool;
  _last_enter_time : Q
}.

Definition DOUBLE_WINDOW : Q := 4 # 10.

(** [__init__]: visible, no window, timestamp 0.0. *)
Definition init : t :=
  {| hidden := false; awaiting_double := false; _last_enter_time := 0 |}.

(** [handle_enter] (lines 47-70).  Both arms of the first [if not
    self.hidden] return, so the second test [if self.hidden] is reached
    exactly when [hidden] is true: it is the [else] arm here. *)
Definition handle_enter (self : t) (now : Q) : t * string :=
  if negb (hidden self) then
    if negb (awaiting_double self) then
      ({| hidden := true; awaiting_double := true; _last_enter_time := now |},
       "hide"%string)
    else
      ({| hidden := hidden self; awaiting_double := false;
          _last_enter_time := _last_enter_time self |},
       "panic"%string)
  else
    if awaiting_double self
       && Qle_bool (now - _last_enter_time self) DOUBLE_WINDOW then
      ({| hidden := hidden self; awaiting_double := false;
          _last_enter_time := _last_enter_time self |},
       "panic"%string)
    else
      ({| hidden := false; awaiting_double := false;
          _last_enter_time := _last_enter_time self |},
       "restore"%string).

(** [check_timers] (lines 72-76); [a > b] is [not (a <= b)] on rationals. *)
Definition check_timers (self : t) (now : Q) : t :=
  if awaiting_double self then
    if negb (Qle_bool (now - _last_enter_time self) DOUBLE_WINDOW) then
      {| hidden := hidden self; awaiting_double := false;
         _last_enter_time := _last_enter_time self |}
    else self
  else self.

(** One call made by the main loop, with the clock value it samples. *)
Inductive call := Enter (now : Q) | Timers (now : Q).

Definition run_call (self : t) (c : call) : t :=
  match c with
  | Enter now => fst (handle_enter self now)
  | Timers now => check_timers self now
  end.

(** States the manager can be in after a sequence of calls from [init]. *)
Inductive reachable : t -> Prop :=
| reach_init : reachable init
| reach_call s c : reachable s -> reachable (run_call s c).

(** The guard of the arm of [handle_enter] at lines 57-60, the one that
    returns ['panic'] without looking at the clock. *)
Definition panic_unchecked_arm (self : t) : bool :=
  negb (hidden self) && awaiting_double self.

End StealthManager.

(** ** Python values and exceptions used by the engine *)

(** The exceptions the engine code can raise.  [RecursionError] is what
    Python raises when [spawn_piece] and [game_over] keep calling each other;
    the embedding counts the remaining call depth. *)
Inductive exn := IndexError | ZeroDivisionError | RecursionError.

Inductive res (A : Type) : Type :=
| Ok (a : A)
| Raise (e : exn).
Arguments Ok {A} a.
Arguments Raise {A} e.

Definition bind {A B : Type} (m : res A) (k : A -> res B) : res B :=
  match m with
  | Ok a => k a
  | Raise e => Raise e
  end.

Notation "'do' x <- m ; k" := (bind m (fun x => k))
  (at level 10, x name, m at level 100, k at level 200).

(** [l[i]] on a Python list: a negative index counts from the end, and an
    index outside the list raises [IndexError]. *)
Definition getitem {A : Type} (l : list A) (i : Z) : res A :=
  let j := if i <? 0 then i + Z.of_nat (length l) else i in
  if j <? 0 then Raise IndexError
  else match l !! Z.to_nat j with
       | Some a => Ok a
       | None => Raise IndexError
       end.

(** [l[i] = v] on a Python list. *)
Definition setitem {A : Type} (l : list A) (i : Z) (v : A) : res (list A) :=
  let j := if i <? 0 then i + Z.of_nat (length l) else i in
  if j <? 0 then Raise IndexError
  else if decide (Z.to_nat j < length l)%nat then Ok (<[Z.to_nat j := v]> l)
  else Raise IndexError.

(** [max(a, b)] on two numbers: [b] replaces [a] only when [b > a]. *)
Definition py_max (a b : Q) : Q := if Qle_bool b a then a else b.

(** ** TetrisGame (lines 108-265) *)

Module TetrisGame.

Definition WIDTH : Z := 10.
Definition HEIGHT : Z := 20.

(** The keys of [SHAPES]. *)
Inductive Kind := kI | kO | kT | kL | kJ | kS | kZ.

(** [SHAPES]: per kind, the list of rotation states, each a list of
    [(x, y)] offsets. *)
Definition SHAPES (k : Kind) : list (list (Z * Z)) :=
  match k with
  | kI => [ [(0,1);(1,1);(2,1);(3,1)];
            [(2,0);(2,1);(2,2);(2,3)] ]
  | kO => [ [(1,0);(2,0);(1,1);(2,1)] ]
  | kT => [ [(1,0);(0,1);(1,1);(2,1)];
            [(1,0);(1,1);(2,1);(1,2)];
            [(0,1);(1,1);(2,1);(1,2)];
            [(1,0);(0,1);(1,1);(1,2)] ]
  | kL => [ [(2,0);(0,1);(1,1);(2,1)];
            [(1,0);(1,1);(1,2);(2,2)];
            [(0,1);(1,1);(2,1);(0,2)];
            [(0,0);(1,0);(1,1);(1,2)] ]
  | kJ => [ [(0,0);(0,1);(1,1);(2,1)];
            [(1,0);(2,0);(1,1);(1,2)];
            [(0,1);(1,1);(2,1);(2,2)];
            [(1,0);(1,1);(0,2);(1,2)] ]
  | kS => [ [(1,0);(2,0);(0,1);(1,1)];
            [(1,0);(1,1);(2,1);(2,2)] ]
  | kZ => [ [(0,0);(1,0);(1,1);(2,1)];
            [(2,0);(1,1);(2,1);(1,2)] ]
  end.

Definition SHAPE_KEYS : list Kind := [kI; kO; kT; kL; kJ; kS; kZ].

(** The dict built by [_random_piece]. *)
Record Piece := MkPiece {
  kind : Kind;
  rot : Z;
  rotations : list (list (Z * Z))
}.

(** Instance attributes of [TetrisGame].  [rand_src] and [rand_pos] are the
    random source read by [random.choice] and the number of draws made. *)
Record t := Mk {
  grid : list (list Z);
  score : Z;
  level : Z;
  lines : Z;
  current : Piece;
  next_piece : Piece;
  drop_interval : Q;
  last_drop : Q;
  lock_delay : Q;
  soft_drop : bool;
  px : Z;
  py : Z;
  rand_src : nat -> Kind;
  rand_pos : nat
}.

(** Attribute assignments. *)
Definition set_grid (s : t) (v : list (list Z)) : t :=
  Mk v (score s) (level s) (lines s) (current s) (next_piece s)
     (drop_interval s) (last_drop s) (lock_delay s) (soft_drop s)
     (px s) (py s) (rand_src s) (rand_pos s).
Definition set_score (s : t) (v : Z) : t :=
  Mk (grid s) v (level s) (lines s) (current s) (next_piece s)
     (drop_interval s) (last_drop s) (lock_delay s) (soft_drop s)
     (px s) (py s) (rand_src s) (rand_pos s).
Definition set_level (s : t) (v : Z) : t :=
  Mk (grid s) (score s) v (lines s) (current s) (next_piece s)
     (drop_interval s) (last_drop s) (lock_delay s) (soft_drop s)
     (px s) (py s) (rand_src s) (rand_pos s).
Definition set_lines (s : t) (v : Z) : t :=
  Mk (grid s) (score s) (level s) v (current s) (next_piece s)
     (drop_interval s) (last_drop s) (lock_delay s) (soft_drop s)
     (px s) (py s) (rand_src s) (rand_pos s).
Definition set_current (s : t) (v : Piece) : t :=
  Mk (grid s) (score s) (level s) (lines s) v (next_piece s)
     (drop_interval s) (last_drop s) (lock_delay s) (soft_drop s)
     (px s) (py s) (rand_src s) (rand_pos s).
Definition set_next_piece (s : t) (v : Piece) : t :=
  Mk (grid s) (score s) (level s) (lines s) (current s) v
     (drop_interval s) (last_drop s) (lock_delay s) (soft_drop s)
     (px s) (py s) (rand_src s) (rand_pos s).
Definition set_drop_interval (s : t) (v : Q) : t :=
  Mk (grid s) (score s) (level s) (lines s) (current s) (next_piece s)
     v (last_drop s) (lock_delay s) (soft_drop s)
     (px s) (py s) (rand_src s) (rand_pos s).
Definition set_last_drop (s : t) (v : Q) : t :=
  Mk (grid s) (score s) (level s) (lines s) (current s) (next_piece s)
     (drop_interval s) v (lock_delay s) (soft_drop s)
     (px s) (py s) (rand_src s) (rand_pos s).
Definition set_soft_drop (s : t) (v : bool) : t :=
  Mk (grid s) (score s) (level s) (lines s) (current s) (next_piece s)
     (drop_interval s) (last_drop s) (lock_delay s) v
     (px s) (py s) (rand_src s) (rand_pos s).
Definition set_px (s : t) (v : Z) : t :=
  Mk (grid s) (score s) (level s) (lines s) (current s) (next_piece s)
     (drop_interval s) (last_drop s) (lock_delay s) (soft_drop s)
     v (py s) (rand_src s) (rand_pos s).
Definition set_py (s : t) (v : Z) : t :=
  Mk (grid s) (score s) (level s) (lines s) (current s) (next_piece s)
     (drop_interval s) (last_drop s) (lock_delay s) (soft_drop s)
     (px s) v (rand_src s) (rand_pos s).
Definition set_rand_pos (s : t) (v : nat) : t :=
  Mk (grid s) (score s) (level s) (lines s) (current s) (next_piece s)
     (drop_interval s) (last_drop s) (lock_delay s) (soft_drop s)
     (px s) (py s) (rand_src s) v.

(** [[0 for _ in range(WIDTH)]] and the all-empty grid of lines 155, 260. *)
Definition empty_row : list Z := replicate (Z.to_nat WIDTH) 0.
Definition empty_grid : list (list Z) := replicate (Z.to_nat HEIGHT) empty_row.

(** [_random_piece] (lines 176-179): one draw from the source. *)
Definition _random_piece (self : t) : Piece * t :=
  let k := rand_src self (rand_pos self) in
  let rotations := SHAPES k in
  ({| kind := k; rot := 0; rotations := rotations |},
   set_rand_pos self (S (rand_pos self))).

(** [_shape_coords] (lines 191-197).  [rot_idx % len(...)] raises
    [ZeroDivisionError] on an empty list of rotations. *)
Definition _shape_coords (self : t) (piece : Piece) (rot_idx px_ py_ : option Z)
  : res (list (Z * Z)) :=
  let rot_idx := match rot_idx with None => rot piece | Some r => r end in
  let n := Z.of_nat (length (rotations piece)) in
  if n =? 0 then Raise ZeroDivisionError
  else
    do state <- getitem (rotations piece) (rot_idx mod n);
    Ok (map (fun c : Z * Z =>
               (fst c + match px_ with Some v => v | None => px self end,
                snd c + match py_ with Some v => v | None => py self end))
            state).

(** The loop of [_valid_position], with its two early returns. *)
Fixpoint valid_cells (g : list (list Z)) (cs : list (Z * Z)) : res bool :=
  match cs with
  | [] => Ok true
  | (x, y) :: cs' =>
      if (x <? 0) || (x >=? WIDTH) || (y <? 0) || (y >=? HEIGHT) then Ok false
      else
        do row <- getitem g y;
        do c <- getitem row x;
        if negb (c =? 0) then Ok false else valid_cells g cs'
  end.

(** [_valid_position] (lines 199-205). *)
Definition _valid_position (self : t) (px_ py_ rot_idx : Z) : res bool :=
  do cs <- _shape_coords self (current self) (Some rot_idx) (Some px_) (Some py_);
  valid_cells (grid self) cs.

(** [rotate] (lines 207-210). *)
Definition rotate (self : t) : res t :=
  let n := Z.of_nat (length (rotations (current self))) in
  if n =? 0 then Raise ZeroDivisionError
  else
    let new_rot := (rot (current self) + 1) mod n in
    do ok <- _valid_position self (px self) (py self) new_rot;
    if ok then
      Ok (set_current self
            {| kind := kind (current self); rot := new_rot;
               rotations := rotations (current self) |})
    else Ok self.

(** [move] (lines 212-215). *)
Definition move (self : t) (dx : Z) : res t :=
  let nx := px self + dx in
  do ok <- _valid_position self nx (py self) (rot (current self));
  if ok then Ok (set_px self nx) else Ok self.

Definition soft_drop_on (self : t) : t := set_soft_drop self true.
Definition soft_drop_off (self : t) : t := set_soft_drop self false.

(** [clear_lines] (lines 240-246): the comprehension keeps the rows with a
    zero cell; [range(cleared)] is empty for a non-positive [cleared]. *)
Definition clear_lines (self : t) : t * Z :=
  let new_grid := List.filter (fun row => existsb (fun cell => cell =? 0) row)
                              (grid self) in
  let cleared := HEIGHT - Z.of_nat (length new_grid) in
  let new_grid := Nat.iter (Z.to_nat cleared) (cons empty_row) new_grid in
  (set_grid self new_grid, cleared).

(** The first lines of [spawn_piece] (182-187): promote [next_piece], draw
    a new one, and place the anchor. *)
Definition spawn_place (self : t) : t :=
  let self := set_current self (next_piece self) in
  let '(p, self) := _random_piece self in
  let self := set_next_piece self p in
  let self := set_px self (WIDTH / 2 - 2) in
  set_py self 0.

(** The assignments of [game_over] before its call of [spawn_piece]
    (lines 260-264). *)
Definition game_over_reset (self : t) : t :=
  let self := set_grid self empty_grid in
  let self := set_score self 0 in
  let self := set_lines self 0 in
  let self := set_level self 1 in
  let '(p, self) := _random_piece self in
  set_next_piece self p.

(** [spawn_piece] (lines 181-189) and [game_over] (lines 258-265) call each
    other; [depth] is the call depth left before [RecursionError]. *)
Fixpoint spawn_piece (depth : nat) (self : t) : res t :=
  match depth with
  | O => Raise RecursionError
  | S depth' =>
      let self := spawn_place self in
      do ok <- _valid_position self (px self) (py self) (rot (current self));
      if negb ok then game_over depth' self else Ok self
  end
with game_over (depth : nat) (self : t) : res t :=
  match depth with
  | O => Raise RecursionError
  | S depth' => spawn_piece depth' (game_over_reset self)
  end.

(** The merge loop of [lock_piece] (lines 230-232). *)
Fixpoint merge_cells (g : list (list Z)) (cs : list (Z * Z)) : res (list (list Z)) :=
  match cs with
  | [] => Ok g
  | (x, y) :: cs' =>
      if (0 <=? y) && (y <? HEIGHT) && (0 <=? x) && (x <? WIDTH) then
        do row <- getitem g y;
        do row' <- setitem row x 1;
        do g' <- setitem g y row';
        merge_cells g' cs'
      else merge_cells g cs'
  end.

Definition lock_piece_merge (self : t) : res t :=
  do cs <- _shape_coords self (current self) None None None;
  do g <- merge_cells (grid self) cs;
  Ok (set_grid self g).

(** [{0:0,1:100,2:300,3:500,4:800}.get(cleared, 0)] (line 234). *)
Definition score_table (cleared : Z) : Z :=
  match cleared with
  | 0 => 0
  | 1 => 100
  | 2 => 300
  | 3 => 500
  | 4 => 800
  | _ => 0
  end.

(** The stat updates of [lock_piece] (lines 234-237). *)
Definition lock_piece_stats (self : t) (cleared : Z) : t :=
  let self := set_score self (score self + score_table cleared) in
  let self := set_lines self (lines self + cleared) in
  let self := set_level self (1 + lines self / 10) in
  set_drop_interval self
    (py_max (12 # 100) ((7 # 10) - inject_Z (level self - 1) * (5 # 100))).

(** [lock_piece] (lines 229-238). *)
Definition lock_piece (depth : nat) (self : t) : res t :=
  do self <- lock_piece_merge self;
  let '(self, cleared) := clear_lines self in
  let self := lock_piece_stats self cleared in
  spawn_piece depth self.

(** [step] (lines 248-256): [last_drop] is assigned inside the outer
    [if]. *)
Definition step (depth : nat) (self : t) (now : Q) : res t :=
  let interval := (drop_interval self * (if soft_drop self then 2 # 10 else 1))%Q in
  if Qle_bool interval (now - last_drop self) then
    do ok <- _valid_position self (px self) (py self + 1) (rot (current self));
    do self <- (if ok then Ok (set_py self (py self + 1))
                else lock_piece depth self);
    Ok (set_last_drop self now)
  else Ok self.

(** [__init__] (lines 152-166).  [current], [px] and [py] are first
    assigned by [spawn_piece] before anything reads them; the record needs
    a value there, and takes the first piece and the origin. *)
Definition init (depth : nat) (src : nat -> Kind) (now : Q) : res t :=
  let p := {| kind := src 0%nat; rot := 0; rotations := SHAPES (src 0%nat) |} in
  spawn_piece depth
    {| grid := empty_grid; score := 0; level := 1; lines := 0;
       current := p; next_piece := p;
       drop_interval := 7 # 10; last_drop := now; lock_delay := 5 # 10;
       soft_drop := false; px := 0; py := 0;
       rand_src := src; rand_pos := 1 |}.

(** [n] calls of [rotate] in a row. *)
Fixpoint rotate_n (n : nat) (self : t) : res t :=
  match n with
  | O => Ok self
  | S n' => do self' <- rotate self; rotate_n n' self'
  end.

(** Shape of the grid and of the piece dicts. *)
Definition grid_ok (g : list (list Z)) : Prop :=
  length g = Z.to_nat HEIGHT /\ Forall (fun row => length row = Z.to_nat WIDTH) g.

Definition piece_ok (p : Piece) : Prop := rotations p = SHAPES (kind p).

Definition wf (self : t) : Prop :=
  grid_ok (grid self) /\ piece_ok (current self) /\ piece_ok (next_piece self).

(** The value stored at column [x] of row [y], when the grid has such a
    cell. *)
Definition cell_at (g : list (list Z)) (x y : Z) : option Z :=
  if (x <? 0) || (y <? 0) then None
  else match g !! Z.to_nat y with
       | Some row => row !! Z.to_nat x
       | None => None
       end.

Definition occupied (g : list (list Z)) (x y : Z) : Prop :=
  exists c, cell_at g x y = Some c /\ c <> 0.

Definition in_bounds (x y : Z) : Prop :=
  0 <= x < WIDTH /\ 0 <= y < HEIGHT.

(** A row with no empty cell. *)
Definition row_full (row : list Z) : bool :=
  forallb (fun cell => negb (cell =? 0)) row.

(** What [_random_piece] builds for kind [k]. *)
Definition new_piece (k : Kind) : Piece :=
  {| kind := k; rot := 0; rotations := SHAPES k |}.

(** The offsets that a rotation index selects in a non-empty list of
    rotation states, and their translation to an anchor: what
    [_shape_coords] returns when it does not raise. *)
Definition state_of (p : Piece) (r : Z) : list (Z * Z) :=
  default [] (rotations p !! Z.to_nat (r mod Z.of_nat (length (rotations p)))).

Definition shift (x y : Z) (cs : list (Z * Z)) : list (Z * Z) :=
  map (fun c : Z * Z => (fst c + x, snd c + y)) cs.

(** The rotation index of a piece is an index of its rotation list. *)
Definition rot_in_range (p : Piece) : Prop :=
  0 <= rot p < Z.of_nat (length (rotations p)).

(** The state [spawn_piece] returns when it does not raise: the placed
    piece when it fits, and otherwise the piece placed after the game-over
    reset. *)
Definition spawn_result (s : t) (fits : bool) : t :=
  if fits then spawn_place s
  else spawn_place (game_over_reset (spawn_place s)).

(** The state of [lock_piece] between its stat updates and its call of
    [spawn_piece], from the state after the merge loop. *)
Definition locked (merged : t) : t :=
  lock_piece_stats (fst (clear_lines merged)) (snd (clear_lines merged)).

(** The interval that [step] compares with the elapsed time (line 250). *)
Definition effective_interval (self : t) : Q :=
  (drop_interval self * (if soft_drop self then 2 # 10 else 1))%Q.

(** The drop interval that line 237 derives from a level. *)
Definition interval_of_level (lvl : Z) : Q :=
  py_max (12 # 100) ((7 # 10) - inject_Z (lvl - 1) * (5 # 100)).

(** The [while] loop of [hard_drop] (lines 225-226).  [n] bounds the number
    of iterations; [None] is a loop that is still running after [n] of
    them. *)
Fixpoint hard_drop_loop (n : nat) (self : t) : option (res t) :=
  match n with
  | O => None
  | S n' =>
      match _valid_position self (px self) (py self + 1) (rot (current self)) with
      | Raise e => Some (Raise e)
      | Ok true => hard_drop_loop n' (set_py self (py self + 1))
      | Ok false => Some (Ok self)
      end
  end.

(** [hard_drop] (lines 223-227). *)
Definition hard_drop (n depth : nat) (self : t) : option (res t) :=
  match hard_drop_loop n self with
  | None => None
  | Some (Raise e) => Some (Raise e)
  | Some (Ok self') => Some (lock_piece depth self')
  end.

(** The calls that the main loop makes on a game. *)
Inductive op :=
| OpMove (dx : Z)
| OpRotate
| OpSoftDropOn
| OpSoftDropOff
| OpHardDrop
| OpStep (now : Q).

Definition run_op (n depth : nat) (self : t) (o : op) : option (res t) :=
  match o with
  | OpMove dx => Some (move self dx)
  | OpRotate => Some (rotate self)
  | OpSoftDropOn => Some (Ok (soft_drop_on self))
  | OpSoftDropOff => Some (Ok (soft_drop_off self))
  | OpHardDrop => hard_drop n depth self
  | OpStep now => Some (step depth self now)
  end.

(** A sequence of calls; an exception ends the run. *)
Fixpoint run_ops (n depth : nat) (self : t) (os : list op) : option (res t) :=
  match os with
  | [] => Some (Ok self)
  | o :: os' =>
      match run_op n depth self o with
      | None => None
      | Some (Raise e) => Some (Raise e)
      | Some (Ok self') => run_ops n depth self' os'
      end
  end.

(** The active piece sits on free cells of the board. *)
Definition placed_ok (self : t) : Prop :=
  _valid_position self (px self) (py self) (rot (current self)) = Ok true.

Definition no_full_row (g : list (list Z)) : Prop :=
  Forall (fun row => row_full row = false) g.

Definition stats_ok (self : t) : Prop :=
  0 <= score self /\ 0 <= lines self /\ level self = 1 + lines self / 10
  /\ (12 # 100 <= drop_interval self)%Q /\ (drop_interval self <= 7 # 10)%Q.

(** What every state of a running game satisfies. *)
Definition invariant (self : t) : Prop :=
  wf self /\ rot_in_range (current self) /\ rot_in_range (next_piece self)
  /\ placed_ok self /\ no_full_row (grid self) /\ stats_ok self.

End TetrisGame.

(** ** Example games *)

Module Examples.
Import TetrisGame.

(** A game right after [__init__] at time 0 when every draw gives [k]. *)
Definition fresh (k : Kind) : t :=
  {| grid := empty_grid; score := 0; level := 1; lines := 0;
     current := new_piece k; next_piece := new_piece k;
     drop_interval := 7 # 10; last_drop := 0; lock_delay := 5 # 10;
     soft_drop := false; px := 3; py := 0;
     rand_src := fun _ => k; rand_pos := 2 |}.

(** Nine 'O' pieces dropped straight down from the spawn column. *)
Definition tower_row : list Z := [0; 0; 0; 0; 1; 1; 0; 0; 0; 0].
Definition tower_grid : list (list Z) :=
  empty_row :: empty_row :: replicate 18 tower_row.

(** Ten lines cleared so far (level 2, interval 0.65s), the tower under a
    tenth 'O' piece that has just spawned. *)
Definition tower_game : t :=
  {| grid := tower_grid; score := 1000; level := 2; lines := 10;
     current := new_piece kO; next_piece := new_piece kO;
     drop_interval := interval_of_level 2; last_drop := 0;
     lock_delay := 5 # 10; soft_drop := false; px := 3; py := 0;
     rand_src := fun _ => kO; rand_pos := 40 |}.

(** A stack to the top: rows 2..19 miss only column 0, row 1 misses only
    the two columns under the spawned 'O' piece. *)
Definition holed_row : list Z := [0; 1; 1; 1; 1; 1; 1; 1; 1; 1].
Definition gap_row : list Z := [1; 1; 1; 1; 0; 0; 1; 1; 1; 1].


(** Scenario C: the bottom row full, every other row partly occupied. *)
Definition full_row : list Z := replicate 10 1.
Definition scenario_C_grid : list (list Z) :=
  replicate 19 holed_row ++ [full_row].

(** An 'O' piece at rest on the floor of the empty board. *)
Definition resting_game : t := set_py (fresh kO) 18.

(** Nine single lines cleared so far (score 900, level 1); the bottom row
    misses only the two columns under the 'O' piece, which rests on the
    floor. *)
Definition tenth_line_grid : list (list Z) :=
  replicate 18 empty_row
  ++ [ [1; 1; 0; 0; 0; 0; 0; 0; 0; 0]; gap_row ].

Definition tenth_line_game : t :=
  {| grid := tenth_line_grid; score := 900; level := 1; lines := 9;
     current := new_piece kO; next_piece := new_piece kT;
     drop_interval := interval_of_level 1; last_drop := 0;
     lock_delay := 5 # 10; soft_drop := false; px := 3; py := 18;
     rand_src := fun _ => kT; rand_pos := 27 |}.

(** Scenario C as a game. *)
Definition scenario_C_game : t := set_grid (fresh kO) scenario_C_grid.

(** An 'O' piece against the left wall, and a flat 'I' piece on the floor. *)
Definition left_wall_game : t := set_px (fresh kO) (-1).
Definition floor_game : t := set_py (fresh kI) 18.

End Examples.

(** ** The main loop (lines 320-407) *)

Module Main.

(** The key codes that [curses] defines; they are not part of this
    repository. *)
Record curses_keys := MkKeys {
  KEY_LEFT : Z;
  KEY_RIGHT : Z;
  KEY_UP : Z;
  KEY_DOWN : Z
}.

(** The clock values sampled during one iteration by [handle_enter],
    [check_timers] and [step]. *)
Record clock := MkClock {
  t_enter : Q;
  t_timers : Q;
  t_step : Q
}.

(** One iteration either goes on with the two objects, or ends the process
    ([sys.exit], directly or at the end of [panic_exit]). *)
Inductive outcome :=
| Continue (stealth : StealthManager.t) (game : TetrisGame.t)
| Exit.

(** [key in (a, b)]. *)
Definition key_in (key a b : Z) : bool := (key =? a) || (key =? b).

(** The input dispatch (lines 341-373); [getch] gives -1 when no key is
    waiting. *)
Definition handle_key (K : curses_keys) (stealth : StealthManager.t)
    (game : TetrisGame.t) (key : Z) (ck : clock) : res outcome :=
  if negb (key =? -1) then
    if key_in key (KEY_LEFT K) 97 then
      if negb (StealthManager.hidden stealth) then
        do game' <- TetrisGame.move game (-1); Ok (Continue stealth game')
      else Ok (Continue stealth game)
    else if key_in key (KEY_RIGHT K) 100 then
      if negb (StealthManager.hidden stealth) then
        do game' <- TetrisGame.move game 1; Ok (Continue stealth game')
      else Ok (Continue stealth game)
    else if key_in key (KEY_UP K) 119 then
      if negb (StealthManager.hidden stealth) then
        do game' <- TetrisGame.rotate game; Ok (Continue stealth game')
      else Ok (Continue stealth game)
    else if key_in key (KEY_DOWN K) 115 then
      if negb (StealthManager.hidden stealth) then
        Ok (Continue stealth (TetrisGame.soft_drop_on game))
      else Ok (Continue stealth game)
    else if key_in key 10 13 then
      let '(stealth', action) := StealthManager.handle_enter stealth (t_enter ck) in
      if String.eqb action "hide" then Ok (Continue stealth' game)
      else if String.eqb action "panic" then Ok Exit
      else Ok (Continue stealth' game)
    else if key_in key 113 27 then Ok Exit
    else Ok (Continue stealth game)
  else Ok (Continue stealth game).

(** The body of the [while True] loop (lines 334-407), without the drawing
    and the frame limiter. *)
Definition loop_body (K : curses_keys) (depth : nat) (stealth : StealthManager.t)
    (game : TetrisGame.t) (key : Z) (ck : clock) : res outcome :=
  do r <- handle_key K stealth game key ck;
  match r with
  | Exit => Ok Exit
  | Continue stealth game =>
      let game :=
        if (key =? -1) || negb (key_in key (KEY_DOWN K) 115)
        then TetrisGame.soft_drop_off game else game in
      let stealth := StealthManager.check_timers stealth (t_timers ck) in
      if negb (StealthManager.hidden stealth) then
        do game' <- TetrisGame.step depth game (t_step ck);
        Ok (Continue stealth game')
      else Ok (Continue stealth game)
  end.

(** The key codes of the curses library. *)
Definition real_keys : curses_keys :=
  {| KEY_LEFT := 260; KEY_RIGHT := 261; KEY_UP := 259; KEY_DOWN := 258 |}.

End Main.

(** * Properties of the stealth state machine *)

Section StealthProperties.
Import StealthManager.

Lemma Qle_bool_false (a b : Q) : Qle_bool a b = false <-> ~ (a <= b)%Q.
Proof.
  rewrite <- Qle_bool_iff. destruct (Qle_bool a b); split; intros H; easy.
Qed.

(** The two flags after each transition, by cases on the flags before. *)
Lemma handle_enter_flags (s : t) (now : Q) :
  let s' := fst (handle_enter s now) in
  (awaiting_double s' = true -> hidden s = false /\ awaiting_double s = false)
  /\ (awaiting_double s' = true -> hidden s' = true).
Proof.
  unfold handle_enter.
  destruct (hidden s), (awaiting_double s); simpl;
    try destruct (Qle_bool _ _); simpl; split; intros; try discriminate; auto.
Qed.

Lemma check_timers_flags (s : t) (now : Q) :
  hidden (check_timers s now) = hidden s
  /\ (awaiting_double (check_timers s now) = true -> awaiting_double s = true).
Proof.
  unfold check_timers.
  destruct (awaiting_double s) eqn:E; [| rewrite E; auto].
  destruct (Qle_bool _ _); simpl; auto.
Qed.

Lemma reachable_invariant (s : t) :
  reachable s -> awaiting_double s = true -> hidden s = true.
Proof.
  induction 1 as [| s c Hr IH]; simpl.
  - discriminate.
  - destruct c as [now | now]; simpl.
    + apply (handle_enter_flags s now).
    + destruct (check_timers_flags s now) as [Hh Ha].
      intros H. rewrite Hh. auto.
Qed.

(** An open window survives the timer calls made up to 0.4s after the
    trigger, and no timer call ever changes [hidden]. *)
Lemma check_timers_within (s : t) (now : Q) :
  (now - _last_enter_time s <= DOUBLE_WINDOW)%Q -> check_timers s now = s.
Proof.
  intros H. unfold check_timers.
  apply Qle_bool_iff in H. rewrite H. simpl. now destruct (awaiting_double s).
Qed.

(** After the window has expired a trigger restores, whether or not a timer
    call has closed the window in the meantime. *)
Lemma handle_enter_expired (s : t) (now : Q) :
  hidden s = true ->
  ~ (now - _last_enter_time s <= DOUBLE_WINDOW)%Q ->
  snd (handle_enter s now) = "restore"%string
  /\ hidden (fst (handle_enter s now)) = false
  /\ awaiting_double (fst (handle_enter s now)) = false.
Proof.
  intros Hh Hw. apply Qle_bool_false in Hw.
  unfold handle_enter. rewrite Hh, Hw. simpl.
  rewrite andb_false_r. simpl. auto.
Qed.

(** C2, as amended: with the window open and a trigger at most 0.4s after
    the last one, [handle_enter] returns 'panic' and closes the window; it
    does not touch [hidden] (nor the timestamp), so a hidden machine is still
    hidden afterwards. *)
Theorem C2_panic_keeps_hidden (s : t) (now : Q) :
  awaiting_double s = true ->
  (now - _last_enter_time s <= DOUBLE_WINDOW)%Q ->
  snd (handle_enter s now) = "panic"%string
  /\ awaiting_double (fst (handle_enter s now)) = false
  /\ hidden (fst (handle_enter s now)) = hidden s
  /\ _last_enter_time (fst (handle_enter s now)) = _last_enter_time s.
Proof.
  intros Ha Hw. apply Qle_bool_iff in Hw.
  unfold handle_enter. rewrite Ha, Hw.
  destruct (hidden s); simpl; auto.
Qed.

Lemma C2_panic_keeps_hidden_witness :
  let s := fst (handle_enter init 0) in
  snd (handle_enter s (1 # 10)) = "panic"%string
  /\ awaiting_double (fst (handle_enter s (1 # 10))) = false
  /\ hidden (fst (handle_enter s (1 # 10))) = hidden s
  /\ _last_enter_time (fst (handle_enter s (1 # 10))) = _last_enter_time s.
Proof.
  apply (C2_panic_keeps_hidden (fst (handle_enter init 0)) (1 # 10)).
  - reflexivity.
  - vm_compute. discriminate.
Defined.

(** C2 as stated fails: hidden with the window open since t=0, a trigger
    at t=0.1s returns 'panic' and the machine is still hidden. *)
Lemma C2_counterexample :
  let s := {| hidden := true; awaiting_double := true; _last_enter_time := 0 |} in
  awaiting_double s = true
  /\ ((1 # 10) - _last_enter_time s <= DOUBLE_WINDOW)%Q
  /\ snd (handle_enter s (1 # 10)) = "panic"%string
  /\ hidden (fst (handle_enter s (1 # 10))) <> false.
Proof.
  simpl. repeat split; try reflexivity.
  - vm_compute. discriminate.
  - discriminate.
Qed.

(** C4: from the initial state, a trigger at t=0 returns 'hide' and leaves
    the machine hidden with the window open; a second trigger at t=0.1s
    returns 'panic'; a second trigger at t=0.6s instead returns 'restore'
    and the machine is no longer hidden. *)
Theorem C4_scenario_B :
  let first := handle_enter init 0 in
  snd first = "hide"%string
  /\ hidden (fst first) = true
  /\ awaiting_double (fst first) = true
  /\ snd (handle_enter (fst first) (1 # 10)) = "panic"%string
  /\ snd (handle_enter (fst first) (6 # 10)) = "restore"%string
  /\ hidden (fst (handle_enter (fst first) (6 # 10))) = false.
Proof. vm_compute. repeat split. Qed.

(** The same scenario with the main loop's timer calls in between: any
    number of [check_timers] calls, each at a time between the two
    triggers. *)
Lemma scenario_B_timers_early (ts : list Q) :
  Forall (fun t => (t <= 1 # 10)%Q) ts ->
  let s := fold_left check_timers ts (fst (handle_enter init 0)) in
  snd (handle_enter s (1 # 10)) = "panic"%string.
Proof.
  intros H. cbv zeta.
  assert (E : fold_left check_timers ts (fst (handle_enter init 0))
              = fst (handle_enter init 0)).
  { induction H as [| t ts Ht _ IH]; simpl; [reflexivity |].
    rewrite check_timers_within; [exact IH |].
    simpl. unfold DOUBLE_WINDOW. unfold Qle in *. simpl in *. lia. }
  rewrite E. reflexivity.
Qed.

Lemma scenario_B_timers_late (ts : list Q) :
  let s := fold_left check_timers ts (fst (handle_enter init 0)) in
  snd (handle_enter s (6 # 10)) = "restore"%string
  /\ hidden (fst (handle_enter s (6 # 10))) = false.
Proof.
  cbv zeta.
  assert (E : forall s0, hidden s0 = true -> _last_enter_time s0 = 0%Q ->
              hidden (fold_left check_timers ts s0) = true
              /\ _last_enter_time (fold_left check_timers ts s0) = 0%Q).
  { induction ts as [| t ts IH]; simpl; intros s0 Hh Hl; [auto |].
    apply IH.
    - now rewrite (proj1 (check_timers_flags s0 t)).
    - unfold check_timers.
      destruct (awaiting_double s0); [destruct (negb _) |]; simpl; auto. }
  destruct (E (fst (handle_enter init 0)) eq_refl eq_refl) as [Hh Hl].
  destruct (handle_enter_expired _ (6 # 10) Hh) as (Ha & Hb & _); [| auto].
  rewrite Hl. vm_compute. intros H. apply H. reflexivity.
Qed.

(** C10: in every state reachable from the initial one by [handle_enter]
    and [check_timers] calls (at any clock values), an open window implies
    hidden; so the arm of [handle_enter] that returns 'panic' while not
    hidden is never taken, and every 'panic' went through the 0.4s check. *)
Theorem C10_window_implies_hidden (s : t) :
  reachable s ->
  (awaiting_double s = true -> hidden s = true)
  /\ panic_unchecked_arm s = false
  /\ (forall now, snd (handle_enter s now) = "panic"%string ->
        hidden s = true /\ awaiting_double s = true
        /\ (now - _last_enter_time s <= DOUBLE_WINDOW)%Q).
Proof.
  intros Hr. pose proof (reachable_invariant s Hr) as Hinv.
  split; [exact Hinv |]. split.
  - unfold panic_unchecked_arm.
    destruct (awaiting_double s); [rewrite Hinv by reflexivity |];
      simpl; auto using andb_false_r.
  - intros now. unfold handle_enter.
    destruct (hidden s) eqn:Hh, (awaiting_double s) eqn:Ha; simpl.
    + destruct (Qle_bool _ _) eqn:Hq; simpl; [| discriminate].
      intros _. apply Qle_bool_iff in Hq. auto.
    + discriminate.
    + specialize (Hinv eq_refl). discriminate.
    + discriminate.
Qed.

Lemma C10_window_implies_hidden_witness :
  let s := run_call (run_call init (Enter 0)) (Timers (1 # 10)) in
  (awaiting_double s = true -> hidden s = true)
  /\ panic_unchecked_arm s = false
  /\ (forall now, snd (handle_enter s now) = "panic"%string ->
        hidden s = true /\ awaiting_double s = true
        /\ (now - _last_enter_time s <= DOUBLE_WINDOW)%Q).
Proof.
  apply (C10_window_implies_hidden
           (run_call (run_call init (Enter 0)) (Timers (1 # 10)))).
  apply reach_call. apply reach_call. apply reach_init.
Defined.

End StealthProperties.

(** * Properties of the Tetris engine *)

Section PythonLists.
Context {A : Type}.

Lemma getitem_in_range (l : list A) (i : Z) :
  0 <= i < Z.of_nat (length l) ->
  exists a, l !! Z.to_nat i = Some a /\ getitem l i = Ok a.
Proof.
  intros Hi. unfold getitem.
  destruct (Z.ltb_spec i 0) as [?|_]; [lia |].
  destruct (Z.ltb_spec i 0) as [?|_]; [lia |].
  destruct (lookup_lt_is_Some_2 l (Z.to_nat i)) as [a Ha]; [lia |].
  exists a. rewrite Ha. auto.
Qed.

Lemma setitem_in_range (l : list A) (i : Z) (v : A) :
  0 <= i < Z.of_nat (length l) ->
  setitem l i v = Ok (<[Z.to_nat i := v]> l).
Proof.
  intros Hi. unfold setitem.
  destruct (Z.ltb_spec i 0) as [?|_]; [lia |].
  destruct (Z.ltb_spec i 0) as [?|_]; [lia |].
  destruct (decide _) as [_|Hn]; [reflexivity | lia].
Qed.

End PythonLists.

Section TetrisProperties.
Import TetrisGame.

Lemma grid_ok_rows (g : list (list Z)) (y : Z) :
  grid_ok g -> 0 <= y < HEIGHT ->
  exists row, g !! Z.to_nat y = Some row /\ getitem g y = Ok row
              /\ length row = Z.to_nat WIDTH.
Proof.
  intros [Hlen Hrows] Hy.
  destruct (getitem_in_range g y) as (row & Hl & Hg).
  { rewrite Hlen. unfold HEIGHT in *. lia. }
  exists row. repeat split; auto.
  rewrite Forall_forall in Hrows. apply Hrows.
  eapply list_elem_of_lookup_2; eauto.
Qed.

Lemma empty_grid_ok : grid_ok empty_grid.
Proof.
  split; [reflexivity |].
  apply Forall_forall. intros row Hin.
  apply elem_of_replicate in Hin. destruct Hin as [-> _].
  reflexivity.
Qed.

Lemma shape_coords_some (s : t) (p : Piece) (r x y : Z) :
  rotations p <> [] ->
  _shape_coords s p (Some r) (Some x) (Some y) = Ok (shift x y (state_of p r)).
Proof.
  intros Hne. unfold _shape_coords, state_of.
  assert (Hlen : 0 < Z.of_nat (length (rotations p))).
  { destruct (rotations p); [congruence | simpl; lia]. }
  destruct (Z.eqb_spec (Z.of_nat (length (rotations p))) 0) as [?|_]; [lia |].
  pose proof (Z.mod_pos_bound r _ Hlen) as Hb.
  destruct (getitem_in_range (rotations p) _ Hb) as (st & Hl & Hg).
  rewrite Hg, Hl. reflexivity.
Qed.

Lemma shape_coords_none (s : t) (p : Piece) :
  rotations p <> [] ->
  _shape_coords s p None None None = Ok (shift (px s) (py s) (state_of p (rot p))).
Proof.
  intros Hne. unfold _shape_coords, state_of.
  assert (Hlen : 0 < Z.of_nat (length (rotations p))).
  { destruct (rotations p); [congruence | simpl; lia]. }
  destruct (Z.eqb_spec (Z.of_nat (length (rotations p))) 0) as [?|_]; [lia |].
  pose proof (Z.mod_pos_bound (rot p) _ Hlen) as Hb.
  destruct (getitem_in_range (rotations p) _ Hb) as (st & Hl & Hg).
  rewrite Hg, Hl. reflexivity.
Qed.

(** [SHAPE_KEYS] lists every key of [SHAPES], so a draw can be any kind. *)
Lemma shape_keys_complete (k : Kind) : In k SHAPE_KEYS.
Proof. destruct k; simpl; tauto. Qed.

Lemma shapes_nonempty (k : Kind) : SHAPES k <> [].
Proof. destruct k; discriminate. Qed.

Lemma piece_ok_nonempty (p : Piece) : piece_ok p -> rotations p <> [].
Proof. unfold piece_ok. intros ->. apply shapes_nonempty. Qed.

(** The validity loop never raises on a grid of HEIGHT rows of WIDTH
    cells. *)
Lemma valid_cells_total (g : list (list Z)) (cs : list (Z * Z)) :
  grid_ok g -> exists b, valid_cells g cs = Ok b.
Proof.
  intros Hg. induction cs as [| [x y] cs IH]; simpl; [eauto |].
  destruct (x <? 0) eqn:E1; simpl; [eauto |].
  destruct (x >=? WIDTH) eqn:E2; simpl; [eauto |].
  destruct (y <? 0) eqn:E3; simpl; [eauto |].
  destruct (y >=? HEIGHT) eqn:E4; simpl; [eauto |].
  destruct (grid_ok_rows g y Hg) as (row & _ & Hget & Hlen); [lia |].
  rewrite Hget. simpl.
  destruct (getitem_in_range row x) as (c & _ & Hc).
  { rewrite Hlen. unfold WIDTH in *. lia. }
  rewrite Hc. simpl. destruct (negb (c =? 0)); eauto.
Qed.

Lemma valid_position_total (s : t) (x y r : Z) :
  grid_ok (grid s) -> rotations (current s) <> [] ->
  exists b, _valid_position s x y r = Ok b.
Proof.
  intros Hg Hne. unfold _valid_position.
  rewrite shape_coords_some by assumption. simpl.
  apply valid_cells_total; assumption.
Qed.

(** Every fresh piece fits at the spawn anchor of the empty grid. *)
Lemma spawn_on_empty_grid (s : t) (k : Kind) :
  grid s = empty_grid -> current s = new_piece k ->
  _valid_position s (WIDTH / 2 - 2) 0 0 = Ok true.
Proof.
  intros Hg Hc. unfold _valid_position.
  rewrite shape_coords_some by (rewrite Hc; apply shapes_nonempty).
  rewrite Hg, Hc. destruct k; vm_compute; reflexivity.
Qed.

(** ** Moves and rotations *)

Lemma rotate_invariant (s : t) :
  grid_ok (grid s) -> piece_ok (current s) -> rot_in_range (current s) ->
  exists s', rotate s = Ok s'
             /\ grid s' = grid s
             /\ kind (current s') = kind (current s)
             /\ rotations (current s') = rotations (current s)
             /\ rot_in_range (current s').
Proof.
  intros Hg Hp Hr. unfold rotate.
  pose proof (piece_ok_nonempty _ Hp) as Hne.
  assert (Hlen : 0 < Z.of_nat (length (rotations (current s)))).
  { destruct (rotations (current s)); [congruence | simpl; lia]. }
  destruct (Z.eqb_spec (Z.of_nat (length (rotations (current s)))) 0) as [?|_];
    [lia |].
  destruct (valid_position_total s (px s) (py s)
              ((rot (current s) + 1) mod Z.of_nat (length (rotations (current s))))
              Hg Hne) as [b Hb].
  rewrite Hb. simpl. destruct b.
  - eexists. split; [reflexivity |]. simpl. repeat split; auto.
    + apply Z.mod_pos_bound; assumption.
    + apply Z.mod_pos_bound; assumption.
  - exists s. repeat split; auto; apply Hr.
Qed.

Lemma rotate_n_invariant (n : nat) (s : t) :
  grid_ok (grid s) -> piece_ok (current s) -> rot_in_range (current s) ->
  exists s', rotate_n n s = Ok s'
             /\ kind (current s') = kind (current s)
             /\ rotations (current s') = rotations (current s)
             /\ rot_in_range (current s').
Proof.
  revert s. induction n as [| n IH]; intros s Hg Hp Hr; simpl.
  - exists s. auto.
  - destruct (rotate_invariant s Hg Hp Hr) as (s1 & E & Eg & Ek & Erots & Er1).
    rewrite E. simpl.
    destruct (IH s1) as (s' & E' & Ek' & Erots' & Er').
    + rewrite Eg. assumption.
    + unfold piece_ok in *. rewrite Erots, Ek. assumption.
    + assumption.
    + exists s'. repeat split.
      * assumption.
      * congruence.
      * congruence.
      * apply Er'.
      * apply Er'.
Qed.

(** C8: for every kind, a piece as [_random_piece] creates it (index 0)
    keeps its rotation index within [0, stateCount) of that kind through
    any number of [rotate] calls, none of which raises. *)
Theorem C8_rotation_index_in_range (k : Kind) (s : t) (n : nat) :
  grid_ok (grid s) ->
  current s = new_piece k ->
  exists s', rotate_n n s = Ok s'
             /\ kind (current s') = k
             /\ 0 <= rot (current s') < Z.of_nat (length (SHAPES k)).
Proof.
  intros Hg Hc.
  destruct (rotate_n_invariant n s Hg) as (s' & E & Ek & Erots & Er).
  - rewrite Hc. reflexivity.
  - rewrite Hc. unfold rot_in_range. simpl.
    pose proof (shapes_nonempty k). destruct (SHAPES k); [congruence | simpl; lia].
  - exists s'. rewrite Hc in Ek, Erots. simpl in Ek, Erots.
    unfold rot_in_range in Er. rewrite Erots in Er. auto.
Qed.

Lemma C8_rotation_index_in_range_witness :
  exists s', rotate_n 5 (Examples.fresh kT) = Ok s'
             /\ kind (current s') = kT
             /\ 0 <= rot (current s') < Z.of_nat (length (SHAPES kT)).
Proof.
  apply (C8_rotation_index_in_range kT (Examples.fresh kT) 5).
  - exact empty_grid_ok.
  - reflexivity.
Defined.

(** C9: when the candidate placement of [move(dx)] or of [rotate()] is
    invalid, the call returns normally with the very same state. *)
Theorem C9_invalid_request_rejected (s : t) (dx : Z) :
  (_valid_position s (px s + dx) (py s) (rot (current s)) = Ok false ->
   move s dx = Ok s)
  /\ (_valid_position s (px s) (py s)
        ((rot (current s) + 1) mod Z.of_nat (length (rotations (current s))))
      = Ok false ->
      rotate s = Ok s).
Proof.
  split; intros H.
  - unfold move. rewrite H. reflexivity.
  - unfold rotate.
    destruct (Z.eqb_spec (Z.of_nat (length (rotations (current s)))) 0) as [E|_].
    + unfold _valid_position, _shape_coords in H. rewrite E in H.
      simpl in H. discriminate.
    + rewrite H. reflexivity.
Qed.

Lemma C9_invalid_request_rejected_witness :
  move Examples.left_wall_game (-1) = Ok Examples.left_wall_game
  /\ rotate Examples.floor_game = Ok Examples.floor_game.
Proof.
  split.
  - apply (proj1 (C9_invalid_request_rejected Examples.left_wall_game (-1))).
    vm_compute. reflexivity.
  - apply (proj2 (C9_invalid_request_rejected Examples.floor_game 0)).
    vm_compute. reflexivity.
Defined.

(** ** Spawning and game over *)

Lemma spawn_place_fields (s : t) :
  let s' := spawn_place s in
  grid s' = grid s /\ score s' = score s /\ lines s' = lines s
  /\ level s' = level s /\ drop_interval s' = drop_interval s
  /\ last_drop s' = last_drop s /\ current s' = next_piece s
  /\ next_piece s' = new_piece (rand_src s (rand_pos s))
  /\ px s' = WIDTH / 2 - 2 /\ py s' = 0.
Proof. unfold spawn_place. simpl. repeat split. Qed.

Lemma game_over_reset_fields (s : t) :
  let s' := game_over_reset s in
  grid s' = empty_grid /\ score s' = 0 /\ lines s' = 0 /\ level s' = 1
  /\ drop_interval s' = drop_interval s /\ last_drop s' = last_drop s
  /\ next_piece s' = new_piece (rand_src s (rand_pos s)).
Proof. unfold game_over_reset. simpl. repeat split. Qed.

Lemma spawn_piece_unfold (d : nat) (s : t) :
  spawn_piece (S d) s =
  (do ok <- _valid_position (spawn_place s) (px (spawn_place s))
              (py (spawn_place s)) (rot (current (spawn_place s)));
   if negb ok then game_over d (spawn_place s) else Ok (spawn_place s)).
Proof. reflexivity. Qed.

Lemma game_over_unfold (d : nat) (s : t) :
  game_over (S d) s = spawn_piece d (game_over_reset s).
Proof. reflexivity. Qed.

Lemma spawn_after_reset (s : t) :
  let s1 := spawn_place (game_over_reset s) in
  _valid_position s1 (px s1) (py s1) (rot (current s1)) = Ok true.
Proof.
  intros s1.
  destruct (spawn_place_fields (game_over_reset s))
    as (Eg & _ & _ & _ & _ & _ & Ec & _ & Ex & Ey).
  destruct (game_over_reset_fields s) as (Eg' & _ & _ & _ & _ & _ & En').
  fold s1 in Eg, Ec, Ex, Ey.
  rewrite Ex, Ey, Ec, En'. simpl rot.
  apply (spawn_on_empty_grid s1 (rand_src s (rand_pos s))).
  - rewrite Eg. exact Eg'.
  - rewrite Ec. exact En'.
Qed.

(** A call depth of three is enough, because a fresh piece always fits the
    empty grid. *)
Lemma spawn_piece_spec (d : nat) (s : t) :
  grid_ok (grid s) -> piece_ok (next_piece s) ->
  exists fits,
    _valid_position (spawn_place s) (px (spawn_place s)) (py (spawn_place s))
                    (rot (current (spawn_place s))) = Ok fits
    /\ spawn_piece (3 + d) s = Ok (spawn_result s fits).
Proof.
  intros Hg Hp.
  destruct (spawn_place_fields s) as (Eg & _ & _ & _ & _ & _ & Ec & _).
  destruct (valid_position_total (spawn_place s) (px (spawn_place s))
              (py (spawn_place s)) (rot (current (spawn_place s))))
    as [fits Hfits].
  { rewrite Eg. exact Hg. }
  { rewrite Ec. apply piece_ok_nonempty. exact Hp. }
  exists fits. split; [exact Hfits |].
  change (3 + d)%nat with (S (S (S d))).
  rewrite spawn_piece_unfold, Hfits. unfold bind, spawn_result.
  destruct fits; [reflexivity |]. unfold negb.
  rewrite game_over_unfold, spawn_piece_unfold.
  rewrite (spawn_after_reset (spawn_place s)). reflexivity.
Qed.

Lemma spawn_result_wf (s : t) (fits : bool) :
  grid_ok (grid s) -> piece_ok (next_piece s) -> wf (spawn_result s fits).
Proof.
  intros Hg Hp. unfold wf, spawn_result. destruct fits.
  - destruct (spawn_place_fields s) as (Eg & _ & _ & _ & _ & _ & Ec & En & _).
    rewrite Eg, Ec, En. repeat split; try apply Hg; assumption.
  - destruct (spawn_place_fields (game_over_reset (spawn_place s)))
      as (Eg & _ & _ & _ & _ & _ & Ec & En & _).
    rewrite Eg, Ec, En.
    destruct (game_over_reset_fields (spawn_place s))
      as (Eg' & _ & _ & _ & _ & _ & En').
    rewrite Eg', En'. repeat split; apply empty_grid_ok.
Qed.

(** ** Merging the piece into the grid *)

Lemma cell_at_insert (g : list (list Z)) (row : list Z) (x0 y0 x y : Z) :
  0 <= x0 -> 0 <= y0 ->
  g !! Z.to_nat y0 = Some row -> (Z.to_nat x0 < length row)%nat ->
  cell_at (<[Z.to_nat y0 := <[Z.to_nat x0 := 1]> row]> g) x y
  = if decide (x = x0 /\ y = y0) then Some 1 else cell_at g x y.
Proof.
  intros Hx0 Hy0 Hrow Hlen. unfold cell_at.
  destruct (Z.ltb_spec x 0) as [Hx|Hx]; simpl.
  { destruct (decide _) as [[-> _]|_]; [lia | reflexivity]. }
  destruct (Z.ltb_spec y 0) as [Hy|Hy]; simpl.
  { destruct (decide _) as [[_ ->]|_]; [lia | reflexivity]. }
  destruct (decide (y = y0)) as [->|Hne].
  - rewrite list_lookup_insert_eq by (eapply lookup_lt_Some; eassumption).
    rewrite Hrow.
    destruct (decide (x = x0)) as [->|Hnx].
    + rewrite list_lookup_insert_eq by assumption.
      destruct (decide _) as [_|Hn]; [reflexivity | exfalso; auto].
    + rewrite list_lookup_insert_ne by lia.
      destruct (decide _) as [[? _]|_]; [contradiction | reflexivity].
  - rewrite list_lookup_insert_ne by lia.
    destruct (decide _) as [[_ ?]|_]; [contradiction | reflexivity].
Qed.

Lemma grid_ok_insert (g : list (list Z)) (row : list Z) (i j : nat) :
  grid_ok g -> g !! i = Some row ->
  grid_ok (<[i := <[j := 1]> row]> g).
Proof.
  intros [Hlen Hrows] Hrow. split.
  - rewrite length_insert. exact Hlen.
  - apply Forall_insert; [exact Hrows |].
    rewrite length_insert.
    rewrite Forall_forall in Hrows. apply Hrows.
    eapply list_elem_of_lookup_2; eassumption.
Qed.

Lemma in_bounds_test (x y : Z) :
  (0 <=? y) && (y <? HEIGHT) && (0 <=? x) && (x <? WIDTH) = true
  <-> in_bounds x y.
Proof.
  unfold in_bounds. rewrite !andb_true_iff.
  rewrite !Z.leb_le, !Z.ltb_lt. tauto.
Qed.

Lemma cell_eq_dec (c1 c2 : Z * Z) : {c1 = c2} + {c1 <> c2}.
Proof. decide equality; apply Z.eq_dec. Qed.

(** The loop marks the cells of [cs] that lie on the board, skips the
    others, and leaves every other cell of the grid as it was. *)
Lemma merge_cells_spec (cs : list (Z * Z)) (g : list (list Z)) :
  grid_ok g ->
  exists g', merge_cells g cs = Ok g'
    /\ grid_ok g'
    /\ (forall x y, In (x, y) cs -> in_bounds x y -> cell_at g' x y = Some 1)
    /\ (forall x y, ~ (In (x, y) cs /\ in_bounds x y) ->
                    cell_at g' x y = cell_at g x y).
Proof.
  revert g. induction cs as [| [x0 y0] cs IH]; intros g Hg.
  - exists g. split; [reflexivity |]. split; [exact Hg |].
    split; [intros x y [] | reflexivity].
  - cbn [merge_cells].
    destruct ((0 <=? y0) && (y0 <? HEIGHT) && (0 <=? x0) && (x0 <? WIDTH)) eqn:Eb.
    + apply in_bounds_test in Eb. destruct Eb as [Hx0 Hy0].
      destruct (grid_ok_rows g y0 Hg Hy0) as (row & Hrow & Hget & Hlen).
      rewrite Hget. cbn [bind].
      rewrite setitem_in_range by (rewrite Hlen; unfold WIDTH in *; lia).
      cbn [bind].
      rewrite setitem_in_range
        by (destruct Hg as [Hl _]; rewrite Hl; unfold HEIGHT in *; lia).
      cbn [bind].
      pose proof (grid_ok_insert g row (Z.to_nat y0) (Z.to_nat x0) Hg Hrow) as Hg1.
      destruct (IH _ Hg1) as (g' & E & Hg' & Hin & Hout).
      exists g'. split; [exact E |]. split; [exact Hg' |].
      assert (Hset : forall x y,
                 cell_at (<[Z.to_nat y0 := <[Z.to_nat x0 := 1]> row]> g) x y
                 = if decide (x = x0 /\ y = y0) then Some 1 else cell_at g x y).
      { intros x y. apply cell_at_insert; try lia; assumption. }
      split.
      * intros x y Hxy Hb.
        destruct (in_dec cell_eq_dec (x, y) cs) as [Hc|Hc]; [auto |].
        rewrite Hout by tauto. rewrite Hset.
        destruct Hxy as [Heq|Hxy]; [| contradiction].
        inversion Heq; subst. destruct (decide _); [reflexivity | tauto].
      * intros x y Hn.
        rewrite Hout by (intros [? ?]; apply Hn; split; [right |]; assumption).
        rewrite Hset. destruct (decide _) as [[-> ->]|_]; [| reflexivity].
        exfalso. apply Hn. split; [left; reflexivity | split; assumption].
    + destruct (IH _ Hg) as (g' & E & Hg' & Hin & Hout).
      exists g'. split; [exact E |]. split; [exact Hg' |].
      assert (Hnb : ~ in_bounds x0 y0).
      { intros Hb. apply in_bounds_test in Hb. congruence. }
      split.
      * intros x y [Heq|Hxy] Hb; [| auto].
        inversion Heq; subst. contradiction.
      * intros x y Hn. apply Hout. intros [Hc Hb]. apply Hn.
        split; [right |]; assumption.
Qed.

Lemma cell_at_outside (g : list (list Z)) (x y : Z) :
  grid_ok g -> ~ in_bounds x y -> cell_at g x y = None.
Proof.
  intros Hg Hn. unfold cell_at.
  destruct (Z.ltb_spec x 0) as [Hx|Hx]; [reflexivity |].
  destruct (Z.ltb_spec y 0) as [Hy|Hy]; [reflexivity |]. simpl.
  destruct (g !! Z.to_nat y) as [row|] eqn:Hrow; [| reflexivity].
  pose proof (lookup_lt_Some _ _ _ Hrow) as Hlt.
  destruct Hg as [Hlen Hrows]. rewrite Forall_forall in Hrows.
  pose proof (Hrows row (list_elem_of_lookup_2 _ _ _ Hrow)) as Hw.
  apply lookup_ge_None. unfold in_bounds, WIDTH, HEIGHT in *. lia.
Qed.

(** A placement that [_valid_position] accepts lies on the board. *)
Lemma valid_cells_in_bounds (g : list (list Z)) (cs : list (Z * Z)) :
  valid_cells g cs = Ok true ->
  forall x y, In (x, y) cs -> in_bounds x y.
Proof.
  induction cs as [| [x0 y0] cs IH]; intros Hv x y Hin; [destruct Hin |].
  cbn [valid_cells] in Hv.
  destruct (Z.ltb_spec x0 0) as [?|Hx0]; [discriminate |].
  destruct (Z.geb_spec x0 WIDTH) as [?|Hx1]; [discriminate |].
  destruct (Z.ltb_spec y0 0) as [?|Hy0]; [discriminate |].
  destruct (Z.geb_spec y0 HEIGHT) as [?|Hy1]; [discriminate |].
  cbn [orb] in Hv.
  destruct (getitem g y0) as [row|e]; [| discriminate]. cbn [bind] in Hv.
  destruct (getitem row x0) as [c|e]; [| discriminate]. cbn [bind] in Hv.
  destruct (negb (c =? 0)); [discriminate |].
  destruct Hin as [Heq|Hin]; [| apply IH; assumption].
  inversion Heq; subst. unfold in_bounds. lia.
Qed.

Lemma lock_piece_merge_spec (s : t) :
  grid_ok (grid s) ->
  rotations (current s) <> [] ->
  let cs := shift (px s) (py s) (state_of (current s) (rot (current s))) in
  exists g',
    merge_cells (grid s) cs = Ok g'
    /\ lock_piece_merge s = Ok (set_grid s g')
    /\ grid_ok g'.
Proof.
  intros Hg Hne cs.
  destruct (merge_cells_spec cs (grid s) Hg) as (g' & E & Hg' & _).
  exists g'. split; [exact E |]. split; [| exact Hg'].
  unfold lock_piece_merge. rewrite shape_coords_none by exact Hne.
  cbn [bind]. fold cs. rewrite E. reflexivity.
Qed.

(** For any anchor, valid or not: the merge loop marks the piece's cells
    that lie on the board, its bounds guard skips the others, and every other
    cell keeps its value. *)
Lemma merge_marks_cells_on_board (s : t) :
  grid_ok (grid s) ->
  rotations (current s) <> [] ->
  let cs := shift (px s) (py s) (state_of (current s) (rot (current s))) in
  exists s',
    _shape_coords s (current s) None None None = Ok cs
    /\ lock_piece_merge s = Ok s'
    /\ s' = set_grid s (grid s')
    /\ grid_ok (grid s')
    /\ (forall x y, In (x, y) cs -> in_bounds x y ->
                    cell_at (grid s') x y = Some 1)
    /\ (forall x y, In (x, y) cs -> ~ in_bounds x y ->
                    cell_at (grid s') x y = None)
    /\ (forall x y, ~ In (x, y) cs ->
                    cell_at (grid s') x y = cell_at (grid s) x y).
Proof.
  intros Hg Hne cs.
  destruct (merge_cells_spec cs (grid s) Hg) as (g' & E & Hg' & Hin & Hout).
  exists (set_grid s g').
  split; [apply shape_coords_none; exact Hne |].
  split.
  { unfold lock_piece_merge. rewrite shape_coords_none by exact Hne.
    cbn [bind]. fold cs. rewrite E. reflexivity. }
  split; [reflexivity |].
  split; [exact Hg' |].
  split; [exact Hin |].
  split; [intros x y _ Hn; apply cell_at_outside; assumption |].
  intros x y Hn. apply Hout. tauto.
Qed.

Lemma getitem_lookup {A : Type} (l : list A) (i : Z) (a : A) :
  0 <= i -> getitem l i = Ok a -> l !! Z.to_nat i = Some a.
Proof.
  intros Hi. unfold getitem.
  destruct (Z.ltb_spec i 0) as [?|_]; [lia |].
  destruct (Z.ltb_spec i 0) as [?|_]; [lia |].
  destruct (l !! Z.to_nat i); [| discriminate].
  intros H. injection H as ->. reflexivity.
Qed.

Lemma lookup_getitem {A : Type} (l : list A) (i : Z) (a : A) :
  0 <= i -> l !! Z.to_nat i = Some a -> getitem l i = Ok a.
Proof.
  intros Hi Hl. pose proof (lookup_lt_Some _ _ _ Hl) as Hlt.
  destruct (getitem_in_range l i) as (a' & Hl' & Hg); [lia |].
  rewrite Hl in Hl'. injection Hl' as <-. exact Hg.
Qed.

Lemma cell_at_some (g : list (list Z)) (x y c : Z) :
  cell_at g x y = Some c ->
  0 <= x /\ 0 <= y
  /\ exists row, g !! Z.to_nat y = Some row /\ row !! Z.to_nat x = Some c.
Proof.
  unfold cell_at.
  destruct (Z.ltb_spec x 0) as [?|Hx]; [discriminate |].
  destruct (Z.ltb_spec y 0) as [?|Hy]; [discriminate |]. cbn [orb].
  destruct (g !! Z.to_nat y) as [row|]; [| discriminate].
  intros H. split; [exact Hx |]. split; [exact Hy |]. exists row. auto.
Qed.

(** What [_valid_position] has accepted: every cell is on the board and
    the grid holds 0 there. *)
Lemma valid_cells_free (g : list (list Z)) (cs : list (Z * Z)) :
  valid_cells g cs = Ok true ->
  forall x y, In (x, y) cs -> in_bounds x y /\ cell_at g x y = Some 0.
Proof.
  induction cs as [| [x0 y0] cs IH]; intros Hv x y Hin; [destruct Hin |].
  cbn [valid_cells] in Hv.
  destruct (Z.ltb_spec x0 0) as [?|Hx0]; [discriminate |].
  destruct (Z.geb_spec x0 WIDTH) as [?|Hx1]; [discriminate |].
  destruct (Z.ltb_spec y0 0) as [?|Hy0]; [discriminate |].
  destruct (Z.geb_spec y0 HEIGHT) as [?|Hy1]; [discriminate |].
  cbn [orb] in Hv.
  destruct (getitem g y0) as [row|e] eqn:Erow; [| discriminate].
  cbn [bind] in Hv.
  destruct (getitem row x0) as [c|e] eqn:Ec; [| discriminate].
  cbn [bind] in Hv.
  destruct (Z.eqb_spec c 0) as [->|Hne]; [| discriminate]. cbn [negb] in Hv.
  destruct Hin as [Heq|Hin]; [| apply IH; assumption].
  inversion Heq; subst. split; [unfold in_bounds; lia |].
  unfold cell_at.
  destruct (Z.ltb_spec x 0) as [?|_]; [lia |].
  destruct (Z.ltb_spec y 0) as [?|_]; [lia |]. cbn [orb].
  rewrite (getitem_lookup _ _ _ Hy0 Erow). apply getitem_lookup; assumption.
Qed.

(** When every cell of [cs] is a cell of the grid, the merge loop raises
    nothing and its guard skips nothing. *)
Lemma merge_cells_present (cs : list (Z * Z)) (g : list (list Z)) :
  (forall x y, In (x, y) cs ->
               in_bounds x y /\ exists c, cell_at g x y = Some c) ->
  exists g', merge_cells g cs = Ok g'
    /\ (forall x y, In (x, y) cs -> cell_at g' x y = Some 1)
    /\ (forall x y, ~ In (x, y) cs -> cell_at g' x y = cell_at g x y).
Proof.
  revert g. induction cs as [| [x0 y0] cs IH]; intros g H.
  - exists g. split; [reflexivity |]. split; [intros x y [] | reflexivity].
  - destruct (H x0 y0 (or_introl eq_refl)) as [Hb [c Hc]].
    destruct (cell_at_some _ _ _ _ Hc) as (Hx & Hy & row & Hrow & Hcx).
    pose proof (lookup_lt_Some _ _ _ Hrow) as Hylt.
    pose proof (lookup_lt_Some _ _ _ Hcx) as Hxlt.
    cbn [merge_cells]. rewrite (proj2 (in_bounds_test x0 y0) Hb).
    rewrite (lookup_getitem g y0 row Hy Hrow). cbn [bind].
    rewrite setitem_in_range by lia. cbn [bind].
    rewrite setitem_in_range by lia. cbn [bind].
    assert (Hset : forall x y,
               cell_at (<[Z.to_nat y0 := <[Z.to_nat x0 := 1]> row]> g) x y
               = if decide (x = x0 /\ y = y0) then Some 1 else cell_at g x y).
    { intros x y. apply cell_at_insert; assumption. }
    destruct (IH (<[Z.to_nat y0 := <[Z.to_nat x0 := 1]> row]> g))
      as (g' & E & Hin & Hout).
    { intros x y Hxy. destruct (H x y (or_intror Hxy)) as [Hb' [c' Hc']].
      split; [exact Hb' |]. rewrite Hset.
      destruct (decide _); eauto. }
    exists g'. split; [exact E |]. split.
    + intros x y Hxy.
      destruct (in_dec cell_eq_dec (x, y) cs) as [Hc0|Hc0]; [auto |].
      rewrite Hout by exact Hc0. rewrite Hset.
      destruct Hxy as [Heq|Hxy]; [| contradiction].
      inversion Heq; subst. destruct (decide _); [reflexivity | tauto].
    + intros x y Hn.
      rewrite Hout by (intros Hc0; apply Hn; right; exact Hc0).
      rewrite Hset. destruct (decide _) as [[-> ->]|_]; [| reflexivity].
      exfalso. apply Hn. left. reflexivity.
Qed.

Lemma placed_ok_nonempty (s : t) : placed_ok s -> rotations (current s) <> [].
Proof.
  unfold placed_ok, _valid_position, _shape_coords. intros Hv E.
  rewrite E in Hv. discriminate Hv.
Qed.

(** C5: merging the active piece, whose placement the caller has had
    accepted by [_valid_position], marks each of the piece's absolute cells
    as occupied; the merge itself refuses nothing and raises nothing (its
    bounds guard passes every cell of an accepted placement); the only state
    change is the grid, at exactly the piece's cells: every other cell keeps
    its value and every other attribute is untouched. *)
Theorem C5_merge_marks_piece_cells (s : t) :
  placed_ok s ->
  let cs := shift (px s) (py s) (state_of (current s) (rot (current s))) in
  exists s',
    _shape_coords s (current s) None None None = Ok cs
    /\ lock_piece_merge s = Ok s'
    /\ s' = set_grid s (grid s')
    /\ (forall x y, In (x, y) cs -> cell_at (grid s') x y = Some 1)
    /\ (forall x y, In (x, y) cs -> occupied (grid s') x y)
    /\ (forall x y, ~ In (x, y) cs ->
                    cell_at (grid s') x y = cell_at (grid s) x y).
Proof.
  intros Hpl cs. pose proof (placed_ok_nonempty s Hpl) as Hne.
  unfold placed_ok, _valid_position in Hpl.
  rewrite shape_coords_some in Hpl by exact Hne. cbn [bind] in Hpl. fold cs in Hpl.
  pose proof (valid_cells_free _ _ Hpl) as Hfree.
  destruct (merge_cells_present cs (grid s)) as (g' & E & Hin & Hout).
  { intros x y Hxy. destruct (Hfree x y Hxy) as [Hb Hc]. eauto. }
  exists (set_grid s g').
  split; [apply shape_coords_none; exact Hne |].
  split.
  { unfold lock_piece_merge. rewrite shape_coords_none by exact Hne.
    cbn [bind]. fold cs. rewrite E. reflexivity. }
  split; [reflexivity |].
  split; [exact Hin |].
  split; [| exact Hout].
  intros x y Hxy. exists 1. split; [apply Hin; exact Hxy | discriminate].
Qed.

Lemma C5_merge_marks_piece_cells_witness :
  let s := Examples.tower_game in
  let cs := shift (px s) (py s) (state_of (current s) (rot (current s))) in
  exists s',
    _shape_coords s (current s) None None None = Ok cs
    /\ lock_piece_merge s = Ok s'
    /\ s' = set_grid s (grid s')
    /\ (forall x y, In (x, y) cs -> cell_at (grid s') x y = Some 1)
    /\ (forall x y, In (x, y) cs -> occupied (grid s') x y)
    /\ (forall x y, ~ In (x, y) cs ->
                    cell_at (grid s') x y = cell_at (grid s) x y).
Proof.
  apply (C5_merge_marks_piece_cells Examples.tower_game).
  vm_compute. reflexivity.
Defined.

(** ** Clearing lines *)

Lemma iter_cons_replicate {A : Type} (n : nat) (r : A) (l : list A) :
  Nat.iter n (cons r) l = replicate n r ++ l.
Proof. induction n as [| n IH]; simpl; [reflexivity | now rewrite IH]. Qed.

Lemma has_empty_not_full (row : list Z) :
  existsb (fun cell => cell =? 0) row = negb (row_full row).
Proof.
  unfold row_full. induction row as [| c row IH]; simpl; [reflexivity |].
  rewrite IH. destruct (c =? 0); reflexivity.
Qed.

Lemma filter_partition_length {A : Type} (f : A -> bool) (l : list A) :
  (length (List.filter f l)
   + length (List.filter (fun a => negb (f a)) l) = length l)%nat.
Proof.
  induction l as [| a l IH]; simpl; [reflexivity |].
  destruct (f a); simpl; lia.
Qed.

Lemma filter_sublist {A : Type} (f : A -> bool) (l : list A) :
  sublist (List.filter f l) l.
Proof.
  induction l as [| a l IH]; simpl; [constructor |].
  destruct (f a); [apply sublist_skip | apply sublist_cons]; exact IH.
Qed.

Lemma clear_lines_spec (s : t) :
  length (grid s) = Z.to_nat HEIGHT ->
  let c := Z.of_nat (length (List.filter row_full (grid s))) in
  clear_lines s
  = (set_grid s (replicate (Z.to_nat c) empty_row
                 ++ List.filter (fun row => negb (row_full row)) (grid s)),
     c).
Proof.
  intros Hlen c. unfold clear_lines.
  rewrite (List.filter_ext _ (fun row => negb (row_full row)) has_empty_not_full).
  pose proof (filter_partition_length row_full (grid s)) as Hp.
  assert (Ec : HEIGHT
               - Z.of_nat (length (List.filter (fun row => negb (row_full row))
                                               (grid s))) = c).
  { unfold c. unfold HEIGHT in *. lia. }
  rewrite Ec, iter_cons_replicate. reflexivity.
Qed.

(** C6: on a grid of HEIGHT rows, [clear_lines] returns the number of rows
    with no empty cell, and the new grid is that many all-empty rows on top
    of the rows that have an empty cell, in their old order; the row count
    is HEIGHT again and nothing but the grid changes. *)
Theorem C6_clear_lines (s : t) :
  length (grid s) = Z.to_nat HEIGHT ->
  let s' := fst (clear_lines s) in
  let c := snd (clear_lines s) in
  c = Z.of_nat (length (List.filter row_full (grid s)))
  /\ take (Z.to_nat c) (grid s') = replicate (Z.to_nat c) empty_row
  /\ drop (Z.to_nat c) (grid s')
     = List.filter (fun row => negb (row_full row)) (grid s)
  /\ sublist (drop (Z.to_nat c) (grid s')) (grid s)
  /\ length (grid s') = length (grid s)
  /\ length (grid s') = Z.to_nat HEIGHT
  /\ s' = set_grid s (grid s').
Proof.
  intros Hlen. cbv zeta. rewrite (clear_lines_spec s Hlen).
  cbn [fst snd]. set (c := length (List.filter row_full (grid s))).
  rewrite Nat2Z.id. cbn [grid set_grid].
  assert (Hc' : length (replicate c empty_row) = c) by apply length_replicate.
  assert (Hc : c = length (replicate c empty_row)) by (symmetry; exact Hc').
  split; [reflexivity |].
  split; [rewrite take_app_length'; [reflexivity | exact Hc] |].
  split; [rewrite drop_app_length'; [reflexivity | exact Hc] |].
  split; [rewrite drop_app_length'; [apply filter_sublist | exact Hc] |].
  assert (Hl : length (replicate c empty_row
                       ++ List.filter (fun row => negb (row_full row)) (grid s))
               = length (grid s)).
  { rewrite length_app, Hc'.
    pose proof (filter_partition_length row_full (grid s)). unfold c. lia. }
  split; [exact Hl |].
  split; [rewrite Hl; exact Hlen | reflexivity].
Qed.

Lemma C6_clear_lines_witness :
  let s := Examples.scenario_C_game in
  let s' := fst (clear_lines s) in
  let c := snd (clear_lines s) in
  c = Z.of_nat (length (List.filter row_full (grid s)))
  /\ take (Z.to_nat c) (grid s') = replicate (Z.to_nat c) empty_row
  /\ drop (Z.to_nat c) (grid s')
     = List.filter (fun row => negb (row_full row)) (grid s)
  /\ sublist (drop (Z.to_nat c) (grid s')) (grid s)
  /\ length (grid s') = length (grid s)
  /\ length (grid s') = Z.to_nat HEIGHT
  /\ s' = set_grid s (grid s').
Proof.
  apply (C6_clear_lines Examples.scenario_C_game). reflexivity.
Defined.

(** Scenario C: one row is removed, an empty row appears on top, and the
    nineteen other rows follow in their old order. *)
Example scenario_C :
  snd (clear_lines Examples.scenario_C_game) = 1
  /\ grid (fst (clear_lines Examples.scenario_C_game))
     = empty_row :: replicate 19 Examples.holed_row.
Proof. split; reflexivity. Qed.

(** ** Locking *)

Lemma clear_lines_grid_ok (s : t) :
  grid_ok (grid s) -> grid_ok (grid (fst (clear_lines s))).
Proof.
  intros [Hlen Hrows].
  rewrite (clear_lines_spec s Hlen). cbn [fst grid set_grid].
  split.
  { rewrite length_app, length_replicate, Nat2Z.id.
    pose proof (filter_partition_length row_full (grid s)). lia. }
  apply Forall_app. split.
  - apply Forall_replicate. reflexivity.
  - rewrite Forall_forall in *. intros row Hin.
    apply list_elem_of_In, List.filter_In in Hin. destruct Hin as [Hin _].
    apply Hrows, list_elem_of_In, Hin.
Qed.

Lemma locked_fields (s1 : t) :
  let c := snd (clear_lines s1) in
  grid (locked s1) = grid (fst (clear_lines s1))
  /\ score (locked s1) = score s1 + score_table c
  /\ lines (locked s1) = lines s1 + c
  /\ level (locked s1) = 1 + (lines s1 + c) / 10
  /\ drop_interval (locked s1) = interval_of_level (level (locked s1))
  /\ last_drop (locked s1) = last_drop s1
  /\ current (locked s1) = current s1
  /\ next_piece (locked s1) = next_piece s1.
Proof. unfold locked, clear_lines. cbn. repeat split. Qed.

Lemma lock_piece_stats_level (s : t) (c : Z) :
  level (lock_piece_stats s c) = 1 + (lines s + c) / 10.
Proof. reflexivity. Qed.

Lemma lock_piece_unfold (d : nat) (s : t) :
  lock_piece d s = (do s1 <- lock_piece_merge s; spawn_piece d (locked s1)).
Proof.
  unfold lock_piece, locked. destruct (lock_piece_merge s) as [s1|e]; cbn [bind].
  - destruct (clear_lines s1) as [s2 c]. reflexivity.
  - reflexivity.
Qed.

Lemma lock_piece_spec (d : nat) (s : t) :
  wf s ->
  exists s1 fits,
    lock_piece_merge s = Ok s1
    /\ s1 = set_grid s (grid s1)
    /\ _valid_position (spawn_place (locked s1)) (px (spawn_place (locked s1)))
         (py (spawn_place (locked s1)))
         (rot (current (spawn_place (locked s1)))) = Ok fits
    /\ lock_piece (3 + d) s = Ok (spawn_result (locked s1) fits)
    /\ wf (spawn_result (locked s1) fits).
Proof.
  intros (Hg & Hc & Hn).
  destruct (lock_piece_merge_spec s Hg (piece_ok_nonempty _ Hc))
    as (g1 & _ & Em & Hg1).
  set (s1 := set_grid s g1) in *.
  assert (Es1 : s1 = set_grid s (grid s1)) by reflexivity.
  destruct (locked_fields s1) as (Eg & _ & _ & _ & _ & _ & _ & En).
  assert (Hg3 : grid_ok (grid (locked s1))).
  { rewrite Eg. apply clear_lines_grid_ok. exact Hg1. }
  assert (Hn3 : piece_ok (next_piece (locked s1))).
  { rewrite En, Es1. exact Hn. }
  destruct (spawn_piece_spec d (locked s1) Hg3 Hn3) as (fits & Hfits & Esp).
  exists s1, fits.
  split; [exact Em |]. split; [exact Es1 |]. split; [exact Hfits |].
  split.
  - rewrite lock_piece_unfold, Em. cbn [bind]. exact Esp.
  - apply spawn_result_wf; assumption.
Qed.

Lemma spawn_result_stats (s : t) (fits : bool) :
  (fits = true ->
   score (spawn_result s fits) = score s /\ lines (spawn_result s fits) = lines s
   /\ level (spawn_result s fits) = level s)
  /\ (fits = false ->
      score (spawn_result s fits) = 0 /\ lines (spawn_result s fits) = 0
      /\ level (spawn_result s fits) = 1)
  /\ drop_interval (spawn_result s fits) = drop_interval s
  /\ last_drop (spawn_result s fits) = last_drop s.
Proof. destruct fits; repeat split; discriminate. Qed.

(** C7, as amended: a lock that clears [c] rows adds the table value of
    [c] to the score (0 outside 0..4), adds [c] to the line count and sets
    the level to 1 + floor(lines/10), and these are the stats after
    [lock_piece] whenever the next piece fits at its spawn position; when it
    does not fit, the game-over reset leaves score 0, lines 0 and level 1. *)
Theorem C7_lock_updates_stats (d : nat) (s : t) :
  wf s ->
  exists s1 fits s',
    lock_piece_merge s = Ok s1
    /\ _valid_position (spawn_place (locked s1)) (px (spawn_place (locked s1)))
         (py (spawn_place (locked s1)))
         (rot (current (spawn_place (locked s1)))) = Ok fits
    /\ lock_piece (3 + d) s = Ok s'
    /\ (let c := snd (clear_lines s1) in
        score (locked s1) = score s + score_table c
        /\ lines (locked s1) = lines s + c
        /\ level (locked s1) = 1 + (lines s + c) / 10
        /\ (fits = true ->
            score s' = score s + score_table c
            /\ lines s' = lines s + c
            /\ level s' = 1 + lines s' / 10)
        /\ (fits = false -> score s' = 0 /\ lines s' = 0 /\ level s' = 1))
    /\ (score_table 0 = 0 /\ score_table 1 = 100 /\ score_table 2 = 300
        /\ score_table 3 = 500 /\ score_table 4 = 800
        /\ forall c, ~ 0 <= c <= 4 -> score_table c = 0)
    /\ (forall s0 c, lines s0 + c = 0 -> level (lock_piece_stats s0 c) = 1)
    /\ (forall s0 c, lines s0 + c = 10 -> level (lock_piece_stats s0 c) = 2)
    /\ (forall s0 c, lines s0 + c = 25 -> level (lock_piece_stats s0 c) = 3).
Proof.
  intros Hwf.
  destruct (lock_piece_spec d s Hwf) as (s1 & fits & Em & Es1 & Hfits & El & _).
  exists s1, fits, (spawn_result (locked s1) fits).
  split; [exact Em |]. split; [exact Hfits |]. split; [exact El |].
  split.
  - cbv zeta.
    destruct (locked_fields s1) as (_ & Esc & Eli & Ele & _).
    cbv zeta in Esc, Eli, Ele.
    assert (Hs : score s1 = score s) by (rewrite Es1; reflexivity).
    assert (Hl : lines s1 = lines s) by (rewrite Es1; reflexivity).
    rewrite Hs in Esc. rewrite Hl in Eli, Ele.
    destruct (spawn_result_stats (locked s1) fits) as (Ht & Hf & _).
    split; [exact Esc |]. split; [exact Eli |]. split; [exact Ele |].
    split.
    + intros E. destruct (Ht E) as (A & B & C).
      rewrite A, B, C, Esc, Eli, Ele. auto.
    + exact Hf.
  - split.
    + repeat split. intros c Hc.
      destruct c as [| p | p]; [lia | | reflexivity].
      unfold score_table.
      destruct p as [[[|[]|]|[]|]|[[]|[]|]|]; try reflexivity; lia.
    + repeat split; intros s0 c E; rewrite lock_piece_stats_level, E;
        reflexivity.
Qed.

Lemma fresh_wf (k : Kind) : wf (Examples.fresh k).
Proof. split; [apply empty_grid_ok | split; reflexivity]. Qed.

Lemma resting_game_wf : wf Examples.resting_game.
Proof. split; [apply empty_grid_ok | split; reflexivity]. Qed.

Lemma tenth_line_game_wf : wf Examples.tenth_line_game.
Proof.
  split; [| split; reflexivity].
  split; [reflexivity |]. vm_compute. repeat constructor.
Qed.

Lemma C7_lock_updates_stats_witness :
  exists s', lock_piece 3 Examples.tenth_line_game = Ok s'
             /\ score s' = 1000 /\ lines s' = 10 /\ level s' = 2.
Proof.
  destruct (C7_lock_updates_stats 0 Examples.tenth_line_game tenth_line_game_wf)
    as (s1 & fits & s' & _ & _ & E & _).
  exists s'. split; [exact E |].
  vm_compute in E. injection E as <-. repeat split.
Defined.

(** C7 as stated fails: in this game the tenth 'O' piece locks on top of
    the tower without clearing a row, the next piece does not fit, and
    [lock_piece] returns with score 0 and 0 lines instead of 1000 and 10. *)
Lemma C7_counterexample :
  exists s1 s',
    lock_piece_merge Examples.tower_game = Ok s1
    /\ snd (clear_lines s1) = 0
    /\ lock_piece 3 Examples.tower_game = Ok s'
    /\ score s' <> score Examples.tower_game + score_table 0
    /\ lines s' <> lines Examples.tower_game + 0.
Proof.
  eexists. eexists.
  split; [vm_compute; reflexivity |].
  split; [vm_compute; reflexivity |].
  split; [vm_compute; reflexivity |].
  split; vm_compute; discriminate.
Qed.

(** ** The drop interval *)

Lemma interval_of_level_1 : (interval_of_level 1 == 7 # 10)%Q.
Proof. vm_compute. reflexivity. Qed.

(** Without a game over, [lock_piece] leaves the interval derived from the
    level it has just computed. *)
Lemma lock_piece_interval_derived (d : nat) (s : t) :
  wf s ->
  exists s1 s',
    lock_piece_merge s = Ok s1
    /\ lock_piece (3 + d) s = Ok s'
    /\ (_valid_position (spawn_place (locked s1)) (px (spawn_place (locked s1)))
          (py (spawn_place (locked s1)))
          (rot (current (spawn_place (locked s1)))) = Ok true ->
        drop_interval s' = interval_of_level (level s')).
Proof.
  intros Hwf.
  destruct (lock_piece_spec d s Hwf) as (s1 & fits & Em & _ & Hfits & El & _).
  exists s1, (spawn_result (locked s1) fits).
  split; [exact Em |]. split; [exact El |].
  intros Hv. rewrite Hv in Hfits. injection Hfits as <-.
  destruct (locked_fields s1) as (_ & _ & _ & _ & Ei & _).
  exact Ei.
Qed.

(** [__init__] returns a game at level 1 with interval 0.7. *)
Lemma init_spec (d : nat) (src : nat -> Kind) (now : Q) :
  exists s, init (3 + d) src now = Ok s
            /\ wf s /\ level s = 1 /\ drop_interval s = 7 # 10
            /\ last_drop s = now /\ score s = 0 /\ lines s = 0.
Proof.
  unfold init.
  set (s0 := {| grid := empty_grid; score := 0; level := 1; lines := 0;
                current := _; next_piece := _; drop_interval := 7 # 10;
                last_drop := now; lock_delay := 5 # 10; soft_drop := false;
                px := 0; py := 0; rand_src := src; rand_pos := 1 |}).
  destruct (spawn_piece_spec d s0 empty_grid_ok eq_refl) as (fits & Hfits & E).
  exists (spawn_result s0 fits). split; [exact E |].
  split; [apply spawn_result_wf; [apply empty_grid_ok | reflexivity] |].
  destruct fits; repeat split.
Qed.

Example init_fresh : init 3 (fun _ => kO) 0 = Ok (Examples.fresh kO).
Proof. reflexivity. Qed.

(** C3 at the failing input: ten lines cleared (level 2, interval 0.65s),
    the tower reaches the top, the tenth 'O' piece locks and the next one
    does not fit.  After the game-over reset the level is 1 again, but the
    interval is still the 0.65s of level 2, not the 0.7s of level 1; the
    same holds when the lock is reached through [step]. *)
Theorem C3_game_over_keeps_stale_interval :
  exists s' s'',
    lock_piece 3 Examples.tower_game = Ok s'
    /\ level s' = 1 /\ lines s' = 0
    /\ (drop_interval s' == 65 # 100)%Q
    /\ ~ (drop_interval s' == interval_of_level (level s'))%Q
    /\ ~ (drop_interval s' == 7 # 10)%Q
    /\ step 3 Examples.tower_game 1 = Ok s''
    /\ level s'' = 1
    /\ ~ (drop_interval s'' == 7 # 10)%Q.
Proof.
  eexists. eexists.
  split; [vm_compute; reflexivity |].
  split; [reflexivity |]. split; [reflexivity |].
  split; [vm_compute; reflexivity |].
  split; [vm_compute; discriminate |].
  split; [vm_compute; discriminate |].
  split; [vm_compute; reflexivity |].
  split; [reflexivity |].
  vm_compute; discriminate.
Qed.

(** ** Gravity *)

Lemma step_spec (d : nat) (s : t) (now : Q) :
  wf s ->
  exists s', step (3 + d) s now = Ok s'
    /\ wf s'
    /\ (Qle_bool (effective_interval s) (now - last_drop s) = true ->
        last_drop s' = now)
    /\ (Qle_bool (effective_interval s) (now - last_drop s) = false ->
        s' = s).
Proof.
  intros Hwf. unfold step. fold (effective_interval s).
  destruct (Qle_bool (effective_interval s) (now - last_drop s)).
  - destruct Hwf as (Hg & Hc & Hn).
    destruct (valid_position_total s (px s) (py s + 1) (rot (current s)) Hg
                (piece_ok_nonempty _ Hc)) as [b Hb].
    rewrite Hb. cbn [bind]. destruct b.
    + cbn [bind]. eexists. split; [reflexivity |].
      split; [repeat split; try apply Hg; assumption |].
      split; [reflexivity | discriminate].
    + destruct (lock_piece_spec d s (conj Hg (conj Hc Hn)))
        as (s1 & fits & _ & _ & _ & El & Hwf').
      rewrite El. cbn [bind]. eexists. split; [reflexivity |].
      split; [exact Hwf' |].
      split; [reflexivity | discriminate].
  - exists s. split; [reflexivity |]. split; [exact Hwf |].
    split; [discriminate | reflexivity].
Qed.

(** C1, as amended: [step] returns normally; [last_drop] is reset to the
    sampled time exactly when the effective interval has elapsed (whether
    the piece then advanced or locked), and a call before that changes
    nothing, so [last_drop] keeps its old value. *)
Theorem C1_last_drop_reset_when_due (d : nat) (s : t) (now : Q) :
  wf s ->
  exists s', step (3 + d) s now = Ok s'
    /\ ((effective_interval s <= now - last_drop s)%Q -> last_drop s' = now)
    /\ (~ (effective_interval s <= now - last_drop s)%Q ->
        s' = s /\ last_drop s' = last_drop s).
Proof.
  intros Hwf.
  destruct (step_spec d s now Hwf) as (s' & E & _ & Hdue & Hnot).
  exists s'. split; [exact E |]. split.
  - intros H. apply Hdue, Qle_bool_iff, H.
  - intros H. apply Qle_bool_false in H. rewrite (Hnot H). auto.
Qed.

Lemma C1_last_drop_reset_when_due_witness :
  exists s', step 3 Examples.resting_game 1 = Ok s'
    /\ (((effective_interval Examples.resting_game
          <= 1 - last_drop Examples.resting_game)%Q -> last_drop s' = 1%Q)
    /\ (~ (effective_interval Examples.resting_game
           <= 1 - last_drop Examples.resting_game)%Q ->
        s' = Examples.resting_game
        /\ last_drop s' = last_drop Examples.resting_game)).
Proof.
  apply (C1_last_drop_reset_when_due 0 Examples.resting_game 1).
  exact resting_game_wf.
Defined.

(** C1 as stated fails: a fresh game at time 0 with interval 0.7s, stepped
    at t=0.1s, keeps [last_drop] at 0. *)
Lemma C1_counterexample :
  exists s', step 3 (Examples.fresh kO) (1 # 10) = Ok s'
             /\ ~ (last_drop s' == 1 # 10)%Q.
Proof.
  eexists. split; [vm_compute; reflexivity |].
  vm_compute. discriminate.
Qed.

End TetrisProperties.

(** * Further properties of the engine *)

Section EngineProperties.
Import TetrisGame.

(** ** The collision predicate *)

Lemma cell_at_lookup (g : list (list Z)) (row : list Z) (x y : Z) :
  0 <= x -> 0 <= y -> g !! Z.to_nat y = Some row ->
  cell_at g x y = row !! Z.to_nat x.
Proof.
  intros Hx Hy Hrow. unfold cell_at.
  destruct (Z.ltb_spec x 0) as [?|_]; [lia |].
  destruct (Z.ltb_spec y 0) as [?|_]; [lia |].
  cbn [orb]. rewrite Hrow. reflexivity.
Qed.

Lemma valid_cells_true_iff (g : list (list Z)) (cs : list (Z * Z)) :
  grid_ok g ->
  valid_cells g cs = Ok true
  <-> (forall x y, In (x, y) cs -> in_bounds x y /\ cell_at g x y = Some 0).
Proof.
  intros Hg. induction cs as [| [x0 y0] cs IH].
  - split; [intros _ x y [] | reflexivity].
  - cbn [valid_cells].
    destruct (Z.ltb_spec x0 0) as [Hx0|Hx0]; cbn [orb].
    { split; [discriminate |]. intros H.
      destruct (H x0 y0 (or_introl eq_refl)) as [[? ?] _]. lia. }
    destruct (Z.geb_spec x0 WIDTH) as [Hx1|Hx1]; cbn [orb].
    { split; [discriminate |]. intros H.
      destruct (H x0 y0 (or_introl eq_refl)) as [[? ?] _]. lia. }
    destruct (Z.ltb_spec y0 0) as [Hy0|Hy0]; cbn [orb].
    { split; [discriminate |]. intros H.
      destruct (H x0 y0 (or_introl eq_refl)) as [[_ ?] _]. lia. }
    destruct (Z.geb_spec y0 HEIGHT) as [Hy1|Hy1]; cbn [orb].
    { split; [discriminate |]. intros H.
      destruct (H x0 y0 (or_introl eq_refl)) as [[_ ?] _]. lia. }
    destruct (grid_ok_rows g y0 Hg) as (row & Hrow & Hget & Hlen); [lia |].
    rewrite Hget. cbn [bind].
    destruct (getitem_in_range row x0) as (c & Hc & Hgc).
    { rewrite Hlen. unfold WIDTH in *. lia. }
    rewrite Hgc. cbn [bind].
    assert (Hcell : cell_at g x0 y0 = Some c).
    { rewrite (cell_at_lookup g row) by (assumption || lia). exact Hc. }
    destruct (Z.eqb_spec c 0) as [->|Hne]; cbn [negb].
    + rewrite IH. split.
      * intros H x y [Heq|Hin]; [| apply H; exact Hin].
        inversion Heq; subst. split; [unfold in_bounds; lia | exact Hcell].
      * intros H x y Hin. apply H. right. exact Hin.
    + split; [discriminate |]. intros H.
      destruct (H x0 y0 (or_introl eq_refl)) as [_ Hz]. congruence.
Qed.

(** X1: on a board of HEIGHT rows of WIDTH cells, [_valid_position] never
    raises, and it returns True exactly when every cell of the candidate
    placement is on the board and holds 0. *)
Theorem valid_position_iff_cells_free (s : t) (x y r : Z) :
  grid_ok (grid s) ->
  rotations (current s) <> [] ->
  (_valid_position s x y r = Ok true \/ _valid_position s x y r = Ok false)
  /\ (_valid_position s x y r = Ok true
      <-> forall cx cy, In (cx, cy) (shift x y (state_of (current s) r)) ->
                        in_bounds cx cy /\ cell_at (grid s) cx cy = Some 0).
Proof.
  intros Hg Hne. split.
  - destruct (valid_position_total s x y r Hg Hne) as [[|] ->]; auto.
  - unfold _valid_position. rewrite shape_coords_some by exact Hne.
    cbn [bind]. apply valid_cells_true_iff. exact Hg.
Qed.

Lemma valid_position_iff_cells_free_witness :
  _valid_position (Examples.fresh kO) 3 0 0 = Ok true
  <-> forall cx cy,
      In (cx, cy) (shift 3 0 (state_of (current (Examples.fresh kO)) 0)) ->
      in_bounds cx cy /\ cell_at (grid (Examples.fresh kO)) cx cy = Some 0.
Proof.
  apply (valid_position_iff_cells_free (Examples.fresh kO) 3 0 0).
  - exact empty_grid_ok.
  - discriminate.
Defined.

(** ** Moves and rotations that are accepted *)

Lemma valid_position_same_board (s s' : t) (x y r : Z) :
  grid s = grid s' -> rotations (current s) = rotations (current s') ->
  _valid_position s x y r = _valid_position s' x y r.
Proof.
  intros Eg Ec. unfold _valid_position, _shape_coords. rewrite Eg, Ec.
  reflexivity.
Qed.

Lemma set_px_same (s : t) : set_px s (px s) = s.
Proof. destruct s. reflexivity. Qed.

Lemma set_py_same (s : t) : set_py s (py s) = s.
Proof. destruct s. reflexivity. Qed.

Lemma set_px_twice (s : t) (a b : Z) : set_px (set_px s a) b = set_px s b.
Proof. reflexivity. Qed.

(** X2: a move accepted from a valid placement shifts the anchor by [dx]
    and touches nothing else, and the opposite move brings the very same
    state back. *)
Theorem move_round_trip (s : t) (dx : Z) :
  placed_ok s ->
  _valid_position s (px s + dx) (py s) (rot (current s)) = Ok true ->
  move s dx = Ok (set_px s (px s + dx))
  /\ move (set_px s (px s + dx)) (- dx) = Ok s.
Proof.
  intros Hp Hv. split.
  - unfold move. rewrite Hv. reflexivity.
  - unfold move. cbn [px py current set_px].
    replace (px s + dx + - dx) with (px s) by lia.
    rewrite (valid_position_same_board _ s) by reflexivity.
    unfold placed_ok in Hp. rewrite Hp. cbn [bind].
    rewrite set_px_twice, set_px_same. reflexivity.
Qed.

Lemma move_round_trip_witness :
  move (Examples.fresh kO) 2 = Ok (set_px (Examples.fresh kO) 5)
  /\ move (set_px (Examples.fresh kO) 5) (-2) = Ok (Examples.fresh kO).
Proof.
  apply (move_round_trip (Examples.fresh kO) 2); vm_compute; reflexivity.
Defined.

(** An accepted rotation only replaces the rotation index. *)
Lemma rotate_accepts (s : t) (r : Z) :
  let n := Z.of_nat (length (rotations (current s))) in
  0 < n ->
  _valid_position s (px s) (py s) ((r + 1) mod n) = Ok true ->
  rotate (set_current s {| kind := kind (current s); rot := r;
                           rotations := rotations (current s) |})
  = Ok (set_current s {| kind := kind (current s); rot := (r + 1) mod n;
                         rotations := rotations (current s) |}).
Proof.
  intros n Hn Hv. unfold rotate. cbn [current set_current rotations rot px py].
  fold n. destruct (Z.eqb_spec n 0) as [?|_]; [lia |].
  rewrite (valid_position_same_board _ s) by reflexivity.
  rewrite Hv. reflexivity.
Qed.

Lemma rotate_n_accepts (k : nat) (s : t) (r : Z) :
  let n := Z.of_nat (length (rotations (current s))) in
  0 < n ->
  (forall r', 0 <= r' < n -> _valid_position s (px s) (py s) r' = Ok true) ->
  rotate_n k (set_current s {| kind := kind (current s); rot := r;
                               rotations := rotations (current s) |})
  = Ok (set_current s {| kind := kind (current s);
                         rot := if Nat.eqb k 0 then r else (r + Z.of_nat k) mod n;
                         rotations := rotations (current s) |}).
Proof.
  intros n Hn Hall. revert r. induction k as [| k IH]; intros r.
  - reflexivity.
  - cbn [rotate_n]. rewrite rotate_accepts by (fold n; auto using Z.mod_pos_bound).
    cbn [bind]. fold n. rewrite IH. cbn [Nat.eqb].
    destruct k as [| k]; cbn [Nat.eqb].
    + replace (r + Z.of_nat 1) with (r + 1) by lia. reflexivity.
    + rewrite Zplus_mod_idemp_l.
      replace (r + 1 + Z.of_nat (S k)) with (r + Z.of_nat (S (S k))) by lia.
      reflexivity.
Qed.

(** X3: when every rotation state of the piece fits at its anchor, as many
    [rotate] calls as the piece has states bring the very same state back. *)
Theorem rotate_full_cycle (s : t) :
  rot_in_range (current s) ->
  (forall r, 0 <= r < Z.of_nat (length (rotations (current s))) ->
             _valid_position s (px s) (py s) r = Ok true) ->
  rotate_n (length (rotations (current s))) s = Ok s.
Proof.
  intros Hr Hall.
  assert (Hn : 0 < Z.of_nat (length (rotations (current s))))
    by (unfold rot_in_range in Hr; lia).
  assert (Es : set_current s {| kind := kind (current s); rot := rot (current s);
                                rotations := rotations (current s) |} = s).
  { destruct s as [g sc lv li [k r rs] np di ld lk sd x y src pos]. reflexivity. }
  pose proof (rotate_n_accepts (length (rotations (current s))) s
                (rot (current s)) Hn Hall) as H.
  rewrite Es in H. rewrite H.
  destruct (Nat.eqb_spec (length (rotations (current s))) 0) as [E0|_].
  - rewrite E0 in Hn. simpl in Hn. lia.
  - replace ((rot (current s) + Z.of_nat (length (rotations (current s))))
             mod Z.of_nat (length (rotations (current s))))
      with (rot (current s)).
    + rewrite Es. reflexivity.
    + rewrite <- (Z.mul_1_l (Z.of_nat (length (rotations (current s))))) at 1.
      rewrite Z.mod_add by lia. symmetry. apply Z.mod_small. exact Hr.
Qed.

Lemma rotate_full_cycle_witness :
  rotate_n (length (rotations (current (Examples.fresh kT)))) (Examples.fresh kT)
  = Ok (Examples.fresh kT).
Proof.
  apply (rotate_full_cycle (Examples.fresh kT)).
  - vm_compute. split; [discriminate | reflexivity].
  - intros r Hr. change (Z.of_nat _) with 4 in Hr.
    assert (E : r = 0 \/ r = 1 \/ r = 2 \/ r = 3) by lia.
    destruct E as [->|[->|[->| ->]]]; vm_compute; reflexivity.
Defined.

(** ** Hard drop *)

(** Every rotation state of [SHAPES] has four cells, inside a 4x4 box. *)
Lemma shapes_box (k : Kind) (st : list (Z * Z)) :
  In st (SHAPES k) ->
  length st = 4%nat
  /\ forall c, In c st -> 0 <= fst c <= 3 /\ 0 <= snd c <= 3.
Proof.
  intros Hin.
  destruct k; simpl in Hin;
    repeat (destruct Hin as [<-|Hin]; [split; [reflexivity |];
            intros c Hc; simpl in Hc;
            repeat (destruct Hc as [<-|Hc]; [simpl; lia |]); destruct Hc |]);
    destruct Hin.
Qed.

Lemma state_of_in (p : Piece) (r : Z) :
  rotations p <> [] -> In (state_of p r) (rotations p).
Proof.
  intros Hne. unfold state_of.
  assert (Hlen : 0 < Z.of_nat (length (rotations p))).
  { destruct (rotations p); [congruence | simpl; lia]. }
  pose proof (Z.mod_pos_bound r _ Hlen) as Hb.
  destruct (getitem_in_range (rotations p) _ Hb) as (st & Hl & _).
  rewrite Hl. simpl. apply list_elem_of_In.
  eapply list_elem_of_lookup_2. exact Hl.
Qed.

Lemma state_of_box (p : Piece) (r : Z) :
  piece_ok p ->
  length (state_of p r) = 4%nat
  /\ forall c, In c (state_of p r) -> 0 <= fst c <= 3 /\ 0 <= snd c <= 3.
Proof.
  intros Hp. apply (shapes_box (kind p)).
  rewrite <- Hp. apply state_of_in, piece_ok_nonempty, Hp.
Qed.

(** A placement that is accepted has its anchor row between -3 and
    HEIGHT-1. *)
Lemma valid_position_anchor_row (s : t) (x y r : Z) :
  piece_ok (current s) ->
  _valid_position s x y r = Ok true -> -3 <= y < HEIGHT.
Proof.
  intros Hp Hv. unfold _valid_position in Hv.
  rewrite shape_coords_some in Hv by (apply piece_ok_nonempty, Hp).
  cbn [bind] in Hv.
  destruct (state_of_box (current s) r Hp) as [Hlen Hbox].
  destruct (state_of (current s) r) as [| [cx cy] st] eqn:E; [discriminate |].
  pose proof (valid_cells_in_bounds _ _ Hv (cx + x) (cy + y)) as Hb.
  destruct Hb as [_ Hy]; [left; reflexivity |].
  destruct (Hbox (cx, cy)) as [_ Hc]; [left; reflexivity |].
  simpl in Hc. lia.
Qed.

Lemma hard_drop_loop_unfold (n : nat) (s : t) :
  hard_drop_loop (S n) s
  = match _valid_position s (px s) (py s + 1) (rot (current s)) with
    | Raise e => Some (Raise e)
    | Ok true => hard_drop_loop n (set_py s (py s + 1))
    | Ok false => Some (Ok s)
    end.
Proof. reflexivity. Qed.

Lemma hard_drop_loop_spec (n : nat) (s : t) :
  grid_ok (grid s) -> piece_ok (current s) ->
  HEIGHT - 1 - py s <= Z.of_nat n ->
  exists y',
    hard_drop_loop (S n) s = Some (Ok (set_py s y'))
    /\ py s <= y'
    /\ _valid_position s (px s) (y' + 1) (rot (current s)) = Ok false
    /\ (forall y, py s < y <= y' ->
                  _valid_position s (px s) y (rot (current s)) = Ok true).
Proof.
  revert s. induction n as [| n IH]; intros s Hg Hp Hm.
  - rewrite hard_drop_loop_unfold.
    destruct (valid_position_total s (px s) (py s + 1) (rot (current s)) Hg
                (piece_ok_nonempty _ Hp)) as [b Hb].
    destruct b.
    + pose proof (valid_position_anchor_row _ _ _ _ Hp Hb). lia.
    + rewrite Hb. exists (py s). rewrite set_py_same.
      split; [reflexivity |]. split; [lia |]. split; [exact Hb |].
      intros y Hy. lia.
  - rewrite hard_drop_loop_unfold.
    destruct (valid_position_total s (px s) (py s + 1) (rot (current s)) Hg
                (piece_ok_nonempty _ Hp)) as [b Hb].
    rewrite Hb. destruct b.
    + destruct (IH (set_py s (py s + 1))) as (y' & E & Hle & Hstop & Hall).
      * exact Hg.
      * exact Hp.
      * cbn [py set_py]. lia.
      * cbn [py set_py px current] in *.
        exists y'. split; [exact E |]. split; [lia |].
        split.
        { rewrite <- Hstop. apply valid_position_same_board; reflexivity. }
        intros y Hy. destruct (Z.eq_dec y (py s + 1)) as [->|Hne].
        { exact Hb. }
        rewrite <- (Hall y) by lia.
        apply valid_position_same_board; reflexivity.
    + exists (py s). rewrite set_py_same.
      split; [reflexivity |]. split; [lia |]. split; [exact Hb |].
      intros y Hy. lia.
Qed.

Lemma hard_drop_loop_low (n : nat) (s : t) :
  grid_ok (grid s) -> piece_ok (current s) -> py s < -4 ->
  hard_drop_loop (S n) s = Some (Ok s)
  /\ _valid_position s (px s) (py s + 1) (rot (current s)) = Ok false.
Proof.
  intros Hg Hp Hlow. rewrite hard_drop_loop_unfold.
  destruct (valid_position_total s (px s) (py s + 1) (rot (current s)) Hg
              (piece_ok_nonempty _ Hp)) as [b Hb].
  destruct b.
  - pose proof (valid_position_anchor_row _ _ _ _ Hp Hb). lia.
  - rewrite Hb. split; reflexivity.
Qed.

Lemma hard_drop_loop_total (n : nat) (s : t) :
  grid_ok (grid s) -> piece_ok (current s) ->
  exists y',
    hard_drop_loop (S (24 + n)) s = Some (Ok (set_py s y'))
    /\ py s <= y'
    /\ _valid_position s (px s) (y' + 1) (rot (current s)) = Ok false
    /\ (forall y, py s < y <= y' ->
                  _valid_position s (px s) y (rot (current s)) = Ok true).
Proof.
  intros Hg Hp.
  destruct (Z_lt_le_dec (py s) (-4)) as [Hlow|Hhigh].
  - destruct (hard_drop_loop_low (24 + n) s Hg Hp Hlow) as [E Hb].
    exists (py s). rewrite set_py_same.
    split; [exact E |]. split; [lia |]. split; [exact Hb |].
    intros y Hy. lia.
  - apply (hard_drop_loop_spec (24 + n) s Hg Hp).
    unfold HEIGHT. lia.
Qed.

(** X4: [hard_drop] ends within 25 iterations from any anchor, and raises
    nothing: the piece goes straight down through accepted placements to the
    first row from which the next row down is rejected, and is locked
    there. *)
Theorem hard_drop_lands (n d : nat) (s : t) :
  wf s ->
  exists y' s',
    hard_drop_loop (S (24 + n)) s = Some (Ok (set_py s y'))
    /\ py s <= y'
    /\ _valid_position s (px s) (y' + 1) (rot (current s)) = Ok false
    /\ (forall y, py s < y <= y' ->
                  _valid_position s (px s) y (rot (current s)) = Ok true)
    /\ lock_piece (3 + d) (set_py s y') = Ok s'
    /\ hard_drop (S (24 + n)) (3 + d) s = Some (Ok s').
Proof.
  intros (Hg & Hp & Hn).
  destruct (hard_drop_loop_total n s Hg Hp) as (y' & E & Hle & Hstop & Hall).
  destruct (lock_piece_spec d (set_py s y')) as (s1 & fits & _ & _ & _ & El & _).
  { split; [exact Hg |]. split; [exact Hp | exact Hn]. }
  exists y', (spawn_result (locked s1) fits).
  split; [exact E |]. split; [exact Hle |]. split; [exact Hstop |].
  split; [exact Hall |]. split; [exact El |].
  unfold hard_drop. rewrite E. cbv beta iota. rewrite El. reflexivity.
Qed.

Lemma hard_drop_lands_witness :
  exists y' s',
    hard_drop_loop 25 (Examples.fresh kO) = Some (Ok (set_py (Examples.fresh kO) y'))
    /\ py (Examples.fresh kO) <= y'
    /\ _valid_position (Examples.fresh kO) (px (Examples.fresh kO)) (y' + 1)
         (rot (current (Examples.fresh kO))) = Ok false
    /\ (forall y, py (Examples.fresh kO) < y <= y' ->
                  _valid_position (Examples.fresh kO) (px (Examples.fresh kO)) y
                    (rot (current (Examples.fresh kO))) = Ok true)
    /\ lock_piece 3 (set_py (Examples.fresh kO) y') = Ok s'
    /\ hard_drop 25 3 (Examples.fresh kO) = Some (Ok s').
Proof.
  exact (hard_drop_lands 0 0 (Examples.fresh kO) (fresh_wf kO)).
Defined.

(** On the empty board the 'O' piece lands on the floor. *)
Example hard_drop_fresh :
  exists s', hard_drop 25 3 (Examples.fresh kO) = Some (Ok s')
             /\ cell_at (grid s') 4 19 = Some 1
             /\ cell_at (grid s') 5 18 = Some 1
             /\ cell_at (grid s') 4 17 = Some 0.
Proof. eexists. split; [vm_compute; reflexivity |]. repeat split. Qed.

(** ** Full rows *)

Lemma empty_row_not_full : row_full empty_row = false.
Proof. reflexivity. Qed.

Lemma empty_grid_no_full_row : no_full_row empty_grid.
Proof.
  apply Forall_forall. intros row Hin.
  apply elem_of_replicate in Hin. destruct Hin as [-> _]. reflexivity.
Qed.

Lemma no_full_row_filter (g : list (list Z)) :
  no_full_row g ->
  List.filter row_full g = []
  /\ List.filter (fun row => negb (row_full row)) g = g.
Proof.
  induction 1 as [| row g Hrow _ [IH1 IH2]]; simpl; [auto |].
  rewrite Hrow. simpl. rewrite IH1, IH2. auto.
Qed.

Lemma filter_not_full_no_full_row (g : list (list Z)) :
  no_full_row (List.filter (fun row => negb (row_full row)) g).
Proof.
  apply Forall_forall. intros row Hin.
  apply list_elem_of_In, List.filter_In in Hin. destruct Hin as [_ Hf].
  destruct (row_full row); [discriminate | reflexivity].
Qed.

Lemma clear_lines_no_full_row (s : t) :
  length (grid s) = Z.to_nat HEIGHT ->
  no_full_row (grid (fst (clear_lines s))).
Proof.
  intros Hlen. rewrite (clear_lines_spec s Hlen). cbn [fst grid set_grid].
  apply Forall_app. split.
  - apply Forall_replicate. exact empty_row_not_full.
  - apply filter_not_full_no_full_row.
Qed.

Lemma set_grid_same (s : t) : set_grid s (grid s) = s.
Proof. destruct s. reflexivity. Qed.

(** X7: [clear_lines] leaves no full row behind, so a second call right
    after it returns 0 and changes nothing; and on a grid of HEIGHT rows none
    of which is full, [clear_lines] returns 0 and changes nothing. *)
Theorem clear_lines_idempotent (s : t) :
  length (grid s) = Z.to_nat HEIGHT ->
  no_full_row (grid (fst (clear_lines s)))
  /\ clear_lines (fst (clear_lines s)) = (fst (clear_lines s), 0)
  /\ (no_full_row (grid s) -> clear_lines s = (s, 0)).
Proof.
  intros Hlen.
  assert (Hid : forall s0, length (grid s0) = Z.to_nat HEIGHT ->
                           no_full_row (grid s0) -> clear_lines s0 = (s0, 0)).
  { intros s0 Hl Hn. rewrite (clear_lines_spec s0 Hl).
    destruct (no_full_row_filter _ Hn) as [E1 E2]. rewrite E1, E2.
    simpl. rewrite set_grid_same. reflexivity. }
  pose proof (clear_lines_no_full_row s Hlen) as Hnf.
  split; [exact Hnf |]. split.
  - apply Hid; [| exact Hnf].
    rewrite (clear_lines_spec s Hlen). cbn [fst grid set_grid].
    rewrite length_app, length_replicate, Nat2Z.id.
    pose proof (filter_partition_length row_full (grid s)). lia.
  - intros Hn. apply Hid; assumption.
Qed.

Lemma clear_lines_idempotent_witness :
  no_full_row (grid (fst (clear_lines Examples.scenario_C_game)))
  /\ clear_lines (fst (clear_lines Examples.scenario_C_game))
     = (fst (clear_lines Examples.scenario_C_game), 0)
  /\ (no_full_row (grid Examples.scenario_C_game) ->
      clear_lines Examples.scenario_C_game = (Examples.scenario_C_game, 0)).
Proof.
  apply (clear_lines_idempotent Examples.scenario_C_game). reflexivity.
Defined.








(** ** The speed curve *)

Lemma py_max_cases (a b : Q) :
  (py_max a b = a /\ (b <= a)%Q) \/ (py_max a b = b /\ ~ (b <= a)%Q).
Proof.
  unfold py_max. destruct (Qle_bool b a) eqn:E.
  - left. split; [reflexivity |]. apply Qle_bool_iff, E.
  - right. split; [reflexivity |]. apply Qle_bool_false, E.
Qed.

Lemma inject_Z_nonneg (z : Z) : 0 <= z -> (0 <= inject_Z z)%Q.
Proof. intros H. change 0%Q with (inject_Z 0). rewrite <- Zle_Qle. exact H. Qed.

Lemma interval_of_level_bounds (lvl : Z) :
  1 <= lvl ->
  (12 # 100 <= interval_of_level lvl)%Q /\ (interval_of_level lvl <= 7 # 10)%Q.
Proof.
  intros Hl. unfold interval_of_level.
  pose proof (inject_Z_nonneg (lvl - 1) ltac:(lia)) as Hz.
  destruct (py_max_cases (12 # 100) ((7 # 10) - inject_Z (lvl - 1) * (5 # 100)))
    as [[-> Hle]|[-> Hnle]]; split; lra.
Qed.

Lemma interval_of_level_antitone (l1 l2 : Z) :
  l1 <= l2 -> (interval_of_level l2 <= interval_of_level l1)%Q.
Proof.
  intros Hl. unfold interval_of_level.
  assert (Hz : (inject_Z (l1 - 1) <= inject_Z (l2 - 1))%Q).
  { rewrite <- Zle_Qle. lia. }
  destruct (py_max_cases (12 # 100) ((7 # 10) - inject_Z (l1 - 1) * (5 # 100)))
    as [[-> H1]|[-> H1]];
    destruct (py_max_cases (12 # 100) ((7 # 10) - inject_Z (l2 - 1) * (5 # 100)))
    as [[-> H2]|[-> H2]]; lra.
Qed.

Lemma interval_of_level_floor (lvl : Z) :
  13 <= lvl -> interval_of_level lvl = 12 # 100.
Proof.
  intros Hl. unfold interval_of_level.
  assert (Hz : (inject_Z 12 <= inject_Z (lvl - 1))%Q).
  { rewrite <- Zle_Qle. lia. }
  change (inject_Z 12) with (12 # 1) in Hz.
  destruct (py_max_cases (12 # 100) ((7 # 10) - inject_Z (lvl - 1) * (5 # 100)))
    as [[-> _]|[_ Hn]]; [reflexivity |].
  exfalso. apply Hn. lra.
Qed.

Lemma interval_of_level_slope (lvl : Z) :
  lvl <= 12 ->
  interval_of_level lvl = ((7 # 10) - inject_Z (lvl - 1) * (5 # 100))%Q.
Proof.
  intros Hl. unfold interval_of_level.
  assert (Hz : (inject_Z (lvl - 1) <= inject_Z 11)%Q).
  { rewrite <- Zle_Qle. lia. }
  change (inject_Z 11) with (11 # 1) in Hz.
  destruct (py_max_cases (12 # 100) ((7 # 10) - inject_Z (lvl - 1) * (5 # 100)))
    as [[_ Hle]|[-> _]]; [| reflexivity].
  exfalso. lra.
Qed.

(** X9: the interval that a lock derives from the line count lies between
    0.12s and 0.7s, follows 0.7 - (level-1)*0.05 below 120 lines, is 0.12 from
    120 lines on, and never grows with the line count. *)
Theorem drop_interval_curve (s : t) (c : Z) :
  0 <= lines s + c ->
  (12 # 100 <= drop_interval (lock_piece_stats s c))%Q
  /\ (drop_interval (lock_piece_stats s c) <= 7 # 10)%Q
  /\ (lines s + c < 120 ->
      drop_interval (lock_piece_stats s c)
      = ((7 # 10) - inject_Z (level (lock_piece_stats s c) - 1) * (5 # 100))%Q)
  /\ (120 <= lines s + c -> drop_interval (lock_piece_stats s c) = 12 # 100)
  /\ (forall s2 c2, lines s + c <= lines s2 + c2 ->
        (drop_interval (lock_piece_stats s2 c2)
         <= drop_interval (lock_piece_stats s c))%Q).
Proof.
  intros Hn.
  assert (Ed : forall s0 c0, drop_interval (lock_piece_stats s0 c0)
                             = interval_of_level (1 + (lines s0 + c0) / 10))
    by reflexivity.
  rewrite !Ed, lock_piece_stats_level.
  pose proof (Z.div_pos (lines s + c) 10 Hn ltac:(lia)) as Hq.
  destruct (interval_of_level_bounds (1 + (lines s + c) / 10)) as [Hlo Hhi];
    [lia |].
  split; [exact Hlo |]. split; [exact Hhi |]. split; [| split].
  - intros Hlt. apply interval_of_level_slope.
    pose proof (Z.div_lt_upper_bound (lines s + c) 10 12 ltac:(lia) ltac:(lia)).
    lia.
  - intros Hge. apply interval_of_level_floor.
    pose proof (Z.div_le_lower_bound (lines s + c) 10 12 ltac:(lia) ltac:(lia)).
    lia.
  - intros s2 c2 Hle. rewrite Ed. apply interval_of_level_antitone.
    pose proof (Z.div_le_mono (lines s + c) (lines s2 + c2) 10 ltac:(lia) Hle).
    lia.
Qed.

Lemma drop_interval_curve_witness :
  (12 # 100 <= drop_interval (lock_piece_stats Examples.tower_game 4))%Q
  /\ (drop_interval (lock_piece_stats Examples.tower_game 4) <= 7 # 10)%Q.
Proof.
  destruct (drop_interval_curve Examples.tower_game 4) as (A & B & _).
  - vm_compute. discriminate.
  - split; [exact A | exact B].
Defined.

(** ** Game over *)

(** X8: [game_over] returns normally from any state whatever: the board is
    empty, score and lines are 0, the level is 1, two pieces have been drawn,
    the first of them sits at the spawn anchor on free cells; the drop
    interval and the drop timestamp are the ones from before. *)
Theorem game_over_resets (d : nat) (s : t) :
  exists s',
    game_over (2 + d) s = Ok s'
    /\ grid s' = empty_grid
    /\ score s' = 0 /\ lines s' = 0 /\ level s' = 1
    /\ current s' = new_piece (rand_src s (rand_pos s))
    /\ next_piece s' = new_piece (rand_src s (S (rand_pos s)))
    /\ rand_pos s' = S (S (rand_pos s))
    /\ px s' = 3 /\ py s' = 0
    /\ placed_ok s'
    /\ drop_interval s' = drop_interval s
    /\ last_drop s' = last_drop s
    /\ soft_drop s' = soft_drop s.
Proof.
  exists (spawn_place (game_over_reset s)). split.
  - change (2 + d)%nat with (S (S d)).
    rewrite game_over_unfold, spawn_piece_unfold.
    rewrite (spawn_after_reset s). reflexivity.
  - repeat (split; [reflexivity |]).
    split; [exact (spawn_after_reset s) |].
    repeat split.
Qed.

(** ** The invariant of a running game *)

Lemma new_piece_in_range (k : Kind) : rot_in_range (new_piece k).
Proof. destruct k; unfold rot_in_range; simpl; lia. Qed.

Lemma score_table_nonneg (c : Z) : 0 <= score_table c.
Proof.
  destruct c as [| p | p]; simpl; try lia.
  destruct p as [[[|[]|]|[]|]|[[]|[]|]|]; lia.
Qed.

(** The invariant only reads the board, the two pieces, the anchor and the
    stats. *)
Lemma invariant_transfer (s s' : t) :
  invariant s ->
  grid s' = grid s ->
  kind (current s') = kind (current s) ->
  rotations (current s') = rotations (current s) ->
  rot_in_range (current s') ->
  next_piece s' = next_piece s ->
  score s' = score s -> lines s' = lines s -> level s' = level s ->
  drop_interval s' = drop_interval s ->
  placed_ok s' ->
  invariant s'.
Proof.
  intros ((Hg & Hc & Hn) & _ & Hrn & _ & Hnf & Hs)
         Eg Ek Er Hrc En Esc Eli Ele Edi Hpl.
  unfold invariant, wf, piece_ok, stats_ok in *.
  rewrite Eg, Ek, Er, En, Esc, Eli, Ele, Edi. auto 10.
Qed.

Lemma move_invariant (s : t) (dx : Z) :
  invariant s -> exists s', move s dx = Ok s' /\ invariant s'.
Proof.
  intros Hinv. pose proof Hinv as ((Hg & Hc & _) & Hrc & _ & Hpl & _).
  destruct (valid_position_total s (px s + dx) (py s) (rot (current s)) Hg
              (piece_ok_nonempty _ Hc)) as [b Hb].
  unfold move. rewrite Hb. cbn [bind]. destruct b; [| eauto].
  eexists. split; [reflexivity |].
  apply (invariant_transfer s); try reflexivity; try assumption.
Qed.

Lemma rotate_keeps_invariant (s : t) :
  invariant s -> exists s', rotate s = Ok s' /\ invariant s'.
Proof.
  intros Hinv. pose proof Hinv as ((Hg & Hc & _) & Hrc & _ & Hpl & _).
  pose proof (piece_ok_nonempty _ Hc) as Hne.
  assert (Hlen : 0 < Z.of_nat (length (rotations (current s))))
    by (unfold rot_in_range in Hrc; lia).
  unfold rotate.
  destruct (Z.eqb_spec (Z.of_nat (length (rotations (current s)))) 0) as [?|_];
    [lia |].
  destruct (valid_position_total s (px s) (py s)
              ((rot (current s) + 1) mod Z.of_nat (length (rotations (current s))))
              Hg Hne) as [b Hb].
  rewrite Hb. cbn [bind]. destruct b; [| eauto].
  eexists. split; [reflexivity |].
  apply (invariant_transfer s); try reflexivity; try assumption.
  unfold rot_in_range. cbn [current set_current rot rotations].
  apply Z.mod_pos_bound. exact Hlen.
Qed.

Lemma set_soft_drop_invariant (s : t) (b : bool) :
  invariant s -> invariant (set_soft_drop s b).
Proof.
  intros Hinv. pose proof Hinv as (_ & Hrc & _ & Hpl & _).
  apply (invariant_transfer s); try reflexivity; try assumption.
Qed.

Lemma set_last_drop_invariant (s : t) (now : Q) :
  invariant s -> invariant (set_last_drop s now).
Proof.
  intros Hinv. pose proof Hinv as (_ & Hrc & _ & Hpl & _).
  apply (invariant_transfer s); try reflexivity; try assumption.
Qed.

Lemma lock_piece_invariant (d : nat) (s : t) :
  wf s -> rot_in_range (next_piece s) -> no_full_row (grid s) -> stats_ok s ->
  exists s', lock_piece (3 + d) s = Ok s' /\ invariant s'.
Proof.
  intros Hwf Hrn Hnf (Hsc & Hli & Hle & Hlo & Hhi).
  pose proof Hwf as (Hg & Hc & Hn).
  destruct (lock_piece_merge_spec s Hg (piece_ok_nonempty _ Hc))
    as (g1 & _ & Em & Hg1).
  destruct (lock_piece_spec d s Hwf) as (s1 & fits & Em' & _ & Hfits & El & Hwf').
  rewrite Em in Em'. injection Em' as <-.
  exists (spawn_result (locked (set_grid s g1)) fits).
  split; [exact El |].
  set (s1 := set_grid s g1) in *.
  assert (Hlen : length (grid s1) = Z.to_nat HEIGHT) by apply Hg1.
  destruct (locked_fields s1) as (Eg & Esc & Eli & Ele & Edi & _ & _ & En).
  cbv zeta in Esc, Eli, Ele.
  assert (Hc0 : 0 <= snd (clear_lines s1)).
  { rewrite (clear_lines_spec s1 Hlen). cbn [snd]. lia. }
  assert (Hlines : 0 <= lines (locked s1)).
  { rewrite Eli. change (lines s1) with (lines s). lia. }
  assert (Hlevel : 1 <= level (locked s1)).
  { rewrite Ele. change (lines s1) with (lines s).
    pose proof (Z.div_pos (lines s + snd (clear_lines s1)) 10). lia. }
  destruct (interval_of_level_bounds _ Hlevel) as [Hlo' Hhi'].
  rewrite <- Edi in Hlo', Hhi'.
  split; [exact Hwf' |].
  assert (Hsc1 : 0 <= score (locked s1)).
  { rewrite Esc. change (score s1) with (score s).
    pose proof (score_table_nonneg (snd (clear_lines s1))). lia. }
  assert (Hle1 : level (locked s1) = 1 + lines (locked s1) / 10).
  { rewrite Ele, Eli. reflexivity. }
  assert (Hrn1 : rot_in_range (next_piece (locked s1))).
  { rewrite En. exact Hrn. }
  assert (Hnf1 : no_full_row (grid (locked s1))).
  { rewrite Eg. apply clear_lines_no_full_row. exact Hlen. }
  clearbody s1. clear Eg Esc Eli Ele Edi En Hc0 Hlen.
  generalize dependent (locked s1). intros s3 Hwf' El Hfits Hlines Hlevel
    Hlo' Hhi' Hsc1 Hle1 Hrn1 Hnf1.
  unfold spawn_result in *. destruct fits.
  - destruct (spawn_place_fields s3)
      as (Fg & Fsc & Fli & Fle & Fdi & _ & Fc & Fn & _).
    split; [rewrite Fc; exact Hrn1 |].
    split; [rewrite Fn; apply new_piece_in_range |].
    split; [exact Hfits |].
    split; [rewrite Fg; exact Hnf1 |].
    unfold stats_ok. rewrite Fsc, Fli, Fle, Fdi. auto.
  - destruct (spawn_place_fields (game_over_reset (spawn_place s3)))
      as (Fg & Fsc & Fli & Fle & Fdi & _ & Fc & Fn & _).
    destruct (game_over_reset_fields (spawn_place s3))
      as (Rg & Rsc & Rli & Rle & Rdi & _ & Rn).
    destruct (spawn_place_fields s3) as (_ & _ & _ & _ & Pdi & _).
    split; [rewrite Fc, Rn; apply new_piece_in_range |].
    split; [rewrite Fn; apply new_piece_in_range |].
    split; [exact (spawn_after_reset (spawn_place s3)) |].
    split; [rewrite Fg, Rg; exact empty_grid_no_full_row |].
    unfold stats_ok. rewrite Fsc, Fli, Fle, Fdi, Rsc, Rli, Rle, Rdi, Pdi.
    split; [lia |]. split; [lia |]. split; [reflexivity |].
    split; assumption.
Qed.

Lemma step_invariant (d : nat) (s : t) (now : Q) :
  invariant s -> exists s', step (3 + d) s now = Ok s' /\ invariant s'.
Proof.
  intros Hinv.
  pose proof Hinv as ((Hg & Hc & Hn) & Hrc & Hrn & Hpl & Hnf & Hst).
  unfold step. destruct (Qle_bool _ _); [| eauto].
  destruct (valid_position_total s (px s) (py s + 1) (rot (current s)) Hg
              (piece_ok_nonempty _ Hc)) as [b Hb].
  rewrite Hb. cbn [bind]. destruct b.
  - cbn [bind]. eexists. split; [reflexivity |].
    apply (invariant_transfer s); try reflexivity; try assumption.
  - destruct (lock_piece_invariant d s (conj Hg (conj Hc Hn)) Hrn Hnf Hst)
      as (s' & El & Hinv').
    rewrite El. cbn [bind]. eexists. split; [reflexivity |].
    apply set_last_drop_invariant. exact Hinv'.
Qed.

Lemma hard_drop_invariant (n d : nat) (s : t) :
  invariant s ->
  exists s', hard_drop (S (24 + n)) (3 + d) s = Some (Ok s') /\ invariant s'.
Proof.
  intros ((Hg & Hc & Hn) & Hrc & Hrn & Hpl & Hnf & Hst).
  destruct (hard_drop_loop_total n s Hg Hc) as (y' & E & _).
  destruct (lock_piece_invariant d (set_py s y')) as (s' & El & Hinv').
  - split; [exact Hg |]. split; [exact Hc | exact Hn].
  - exact Hrn.
  - exact Hnf.
  - exact Hst.
  - exists s'. split; [| exact Hinv'].
    unfold hard_drop. rewrite E. cbv beta iota. rewrite El. reflexivity.
Qed.

(** X10: [__init__] raises nothing and returns a game that satisfies the
    invariant: a board of HEIGHT rows of WIDTH cells with no full row, pieces
    taken from [SHAPES] with their rotation index in range, the active piece
    on free cells of the board, score and lines at 0, level 1 and interval
    0.7. *)
Theorem init_establishes_invariant (d : nat) (src : nat -> Kind) (now : Q) :
  exists s,
    init (3 + d) src now = Ok s
    /\ invariant s
    /\ current s = new_piece (src 0%nat)
    /\ next_piece s = new_piece (src 1%nat)
    /\ px s = 3 /\ py s = 0
    /\ grid s = empty_grid
    /\ score s = 0 /\ lines s = 0 /\ level s = 1
    /\ drop_interval s = 7 # 10 /\ last_drop s = now.
Proof.
  unfold init.
  set (s0 := {| grid := empty_grid; score := 0; level := 1; lines := 0;
                current := _; next_piece := _; drop_interval := 7 # 10;
                last_drop := now; lock_delay := 5 # 10; soft_drop := false;
                px := 0; py := 0; rand_src := src; rand_pos := 1 |}).
  destruct (spawn_piece_spec d s0 empty_grid_ok eq_refl) as (fits & Hfits & E).
  assert (Hv : _valid_position (spawn_place s0) (px (spawn_place s0))
                 (py (spawn_place s0)) (rot (current (spawn_place s0))) = Ok true).
  { apply (spawn_on_empty_grid (spawn_place s0) (src 0%nat)); reflexivity. }
  rewrite Hv in Hfits. injection Hfits as <-.
  exists (spawn_place s0). split; [exact E |].
  split; [| repeat split].
  split; [split; [exact empty_grid_ok | split; reflexivity] |].
  split; [apply new_piece_in_range |].
  split; [apply new_piece_in_range |].
  split; [exact Hv |].
  split; [exact empty_grid_no_full_row |].
  repeat split; try reflexivity; vm_compute; discriminate.
Qed.

(** X5: every call the main loop can make on a game ([move], [rotate],
    the soft-drop switches, [hard_drop], [step]) keeps the invariant and
    raises nothing, and so does every sequence of such calls. *)
Theorem run_ops_preserves_invariant (n d : nat) (os : list op) (s : t) :
  invariant s ->
  exists s', run_ops (S (24 + n)) (3 + d) s os = Some (Ok s') /\ invariant s'.
Proof.
  revert s. induction os as [| o os IH]; intros s Hinv.
  - exists s. split; [reflexivity | exact Hinv].
  - assert (Hop : exists s1, run_op (S (24 + n)) (3 + d) s o = Some (Ok s1)
                             /\ invariant s1).
    { destruct o as [dx | | | | | now]; cbn [run_op].
      - destruct (move_invariant s dx Hinv) as (s1 & E & H1).
        exists s1. rewrite E. auto.
      - destruct (rotate_keeps_invariant s Hinv) as (s1 & E & H1).
        exists s1. rewrite E. auto.
      - eexists. split; [reflexivity |]. apply set_soft_drop_invariant, Hinv.
      - eexists. split; [reflexivity |]. apply set_soft_drop_invariant, Hinv.
      - apply hard_drop_invariant, Hinv.
      - destruct (step_invariant d s now Hinv) as (s1 & E & H1).
        exists s1. rewrite E. auto. }
    destruct Hop as (s1 & E & H1).
    destruct (IH s1 H1) as (s' & E' & H').
    exists s'. split; [| exact H'].
    cbn [run_ops]. rewrite E. exact E'.
Qed.

Lemma fresh_invariant (k : Kind) : invariant (Examples.fresh k).
Proof.
  split; [apply fresh_wf |].
  split; [apply new_piece_in_range |].
  split; [apply new_piece_in_range |].
  split; [apply (spawn_on_empty_grid (Examples.fresh k) k); reflexivity |].
  split; [exact empty_grid_no_full_row |].
  repeat split; try reflexivity; vm_compute; discriminate.
Qed.

Lemma run_ops_preserves_invariant_witness :
  exists s',
    run_ops 25 3 (Examples.fresh kT)
            [OpMove (-1); OpRotate; OpSoftDropOn; OpStep 1; OpHardDrop]
    = Some (Ok s')
    /\ invariant s'.
Proof.
  exact (run_ops_preserves_invariant 0 0
           [OpMove (-1); OpRotate; OpSoftDropOn; OpStep 1; OpHardDrop]
           (Examples.fresh kT) (fresh_invariant kT)).
Defined.

End EngineProperties.

(** * Further properties of the stealth state machine *)

Section StealthTiming.
Import StealthManager.

Lemma check_timers_frame (s : t) (now : Q) :
  hidden (check_timers s now) = hidden s
  /\ _last_enter_time (check_timers s now) = _last_enter_time s.
Proof.
  unfold check_timers.
  destruct (awaiting_double s); [destruct (negb _) |]; auto.
Qed.

Lemma timers_frame (ts : list Q) (s : t) :
  hidden (fold_left check_timers ts s) = hidden s
  /\ _last_enter_time (fold_left check_timers ts s) = _last_enter_time s.
Proof.
  revert s. induction ts as [| t0 ts IH]; intros s; simpl; [auto |].
  destruct (IH (check_timers s t0)) as [-> ->]. apply check_timers_frame.
Qed.

Lemma timers_within (ts : list Q) (s : t) :
  Forall (fun t0 => (t0 - _last_enter_time s <= DOUBLE_WINDOW)%Q) ts ->
  fold_left check_timers ts s = s.
Proof.
  induction 1 as [| t0 ts Ht _ IH]; simpl; [reflexivity |].
  rewrite check_timers_within by exact Ht. exact IH.
Qed.

(** X11: from any reachable visible state, a trigger at [t1] returns
    'hide'; if the next trigger comes at most 0.4s later, it returns 'panic',
    whatever timer calls were made in between at times within the window. *)
Theorem double_trigger_panics (s : t) (t1 t2 : Q) (ts : list Q) :
  reachable s ->
  hidden s = false ->
  (t2 - t1 <= DOUBLE_WINDOW)%Q ->
  Forall (fun t0 => (t0 - t1 <= DOUBLE_WINDOW)%Q) ts ->
  snd (handle_enter s t1) = "hide"%string
  /\ snd (handle_enter (fold_left check_timers ts (fst (handle_enter s t1))) t2)
     = "panic"%string.
Proof.
  intros Hr Hh Hw Hts.
  assert (Ha : awaiting_double s = false).
  { destruct (awaiting_double s) eqn:E; [| reflexivity].
    pose proof (reachable_invariant s Hr E). congruence. }
  assert (E1 : handle_enter s t1
               = ({| hidden := true; awaiting_double := true;
                     _last_enter_time := t1 |}, "hide"%string)).
  { unfold handle_enter. rewrite Hh, Ha. reflexivity. }
  rewrite E1. cbn [fst snd]. split; [reflexivity |].
  rewrite timers_within by exact Hts.
  unfold handle_enter. cbn [hidden awaiting_double _last_enter_time negb].
  apply Qle_bool_iff in Hw. rewrite Hw. reflexivity.
Qed.

Lemma double_trigger_panics_witness :
  snd (handle_enter init 5) = "hide"%string
  /\ snd (handle_enter
            (fold_left check_timers [5; 51 # 10; 52 # 10]%Q (fst (handle_enter init 5)))
            (53 # 10))
     = "panic"%string.
Proof.
  apply (double_trigger_panics init 5 (53 # 10) [5; 51 # 10; 52 # 10]%Q).
  - apply reach_init.
  - reflexivity.
  - vm_compute. discriminate.
  - repeat constructor; vm_compute; discriminate.
Defined.

(** X12: from any reachable visible state, a trigger at [t1] followed by a
    trigger more than 0.4s later returns 'hide' then 'restore', whatever
    timer calls were made in between, and the machine is visible again with
    no window open. *)
Theorem late_trigger_restores (s : t) (t1 t2 : Q) (ts : list Q) :
  reachable s ->
  hidden s = false ->
  ~ (t2 - t1 <= DOUBLE_WINDOW)%Q ->
  let s1 := fold_left check_timers ts (fst (handle_enter s t1)) in
  snd (handle_enter s t1) = "hide"%string
  /\ snd (handle_enter s1 t2) = "restore"%string
  /\ hidden (fst (handle_enter s1 t2)) = false
  /\ awaiting_double (fst (handle_enter s1 t2)) = false.
Proof.
  intros Hr Hh Hw s1.
  assert (Ha : awaiting_double s = false).
  { destruct (awaiting_double s) eqn:E; [| reflexivity].
    pose proof (reachable_invariant s Hr E). congruence. }
  assert (E1 : handle_enter s t1
               = ({| hidden := true; awaiting_double := true;
                     _last_enter_time := t1 |}, "hide"%string)).
  { unfold handle_enter. rewrite Hh, Ha. reflexivity. }
  unfold s1. rewrite E1. cbn [fst snd]. split; [reflexivity |].
  destruct (timers_frame ts {| hidden := true; awaiting_double := true;
                               _last_enter_time := t1 |}) as [Fh Ft].
  cbn [hidden _last_enter_time] in Fh, Ft.
  apply handle_enter_expired; [exact Fh |].
  rewrite Ft. exact Hw.
Qed.

Lemma late_trigger_restores_witness :
  let s1 := fold_left check_timers [51 # 10; 56 # 10]%Q (fst (handle_enter init 5)) in
  snd (handle_enter init 5) = "hide"%string
  /\ snd (handle_enter s1 6) = "restore"%string
  /\ hidden (fst (handle_enter s1 6)) = false
  /\ awaiting_double (fst (handle_enter s1 6)) = false.
Proof.
  apply (late_trigger_restores init 5 6 [51 # 10; 56 # 10]%Q).
  - apply reach_init.
  - reflexivity.
  - vm_compute. intros H. apply H. reflexivity.
Defined.

End StealthTiming.

(** * Properties of the main loop *)

Section MainLoop.
Import Main.

Lemma spawn_keeps_soft_drop (d : nat) :
  (forall s s', TetrisGame.spawn_piece d s = Ok s' ->
                TetrisGame.soft_drop s' = TetrisGame.soft_drop s)
  /\ (forall s s', TetrisGame.game_over d s = Ok s' ->
                   TetrisGame.soft_drop s' = TetrisGame.soft_drop s).
Proof.
  induction d as [| d [IHs IHg]].
  - split; intros s s' H; discriminate H.
  - split; intros s s' H.
    + rewrite spawn_piece_unfold in H.
      destruct (TetrisGame._valid_position _ _ _ _) as [ok|e]; [| discriminate].
      cbn [bind] in H. destruct ok; cbn [negb] in H.
      * injection H as <-. reflexivity.
      * rewrite (IHg _ _ H). reflexivity.
    + rewrite game_over_unfold in H. rewrite (IHs _ _ H). reflexivity.
Qed.

Lemma lock_piece_keeps_soft_drop (d : nat) (s s' : TetrisGame.t) :
  TetrisGame.lock_piece d s = Ok s' ->
  TetrisGame.soft_drop s' = TetrisGame.soft_drop s.
Proof.
  rewrite lock_piece_unfold. unfold TetrisGame.lock_piece_merge.
  destruct (TetrisGame._shape_coords _ _ _ _ _) as [cs|e]; [| discriminate].
  cbn [bind].
  destruct (TetrisGame.merge_cells _ _) as [g1|e]; [| discriminate].
  cbn [bind]. intros H.
  rewrite (proj1 (spawn_keeps_soft_drop d) _ _ H). reflexivity.
Qed.

Lemma step_keeps_soft_drop (d : nat) (s s' : TetrisGame.t) (now : Q) :
  TetrisGame.step d s now = Ok s' ->
  TetrisGame.soft_drop s' = TetrisGame.soft_drop s.
Proof.
  unfold TetrisGame.step. destruct (Qle_bool _ _).
  - destruct (TetrisGame._valid_position _ _ _ _) as [ok|e]; [| discriminate].
    cbn [bind]. destruct ok.
    + cbn [bind]. intros H. injection H as <-. reflexivity.
    + destruct (TetrisGame.lock_piece d s) as [s1|e] eqn:El; [| discriminate].
      cbn [bind]. intros H. injection H as <-.
      rewrite <- (lock_piece_keeps_soft_drop _ _ _ El). reflexivity.
  - intros H. injection H as <-. reflexivity.
Qed.

(** X15: soft drop is level-triggered: whenever an iteration of the main
    loop leaves the soft-drop flag set, the key polled in that iteration was
    the down key. *)
Theorem soft_drop_needs_down_key (K : curses_keys) (d : nat)
    (st st' : StealthManager.t) (g g' : TetrisGame.t) (key : Z) (ck : clock) :
  loop_body K d st g key ck = Ok (Continue st' g') ->
  TetrisGame.soft_drop g' = true ->
  key <> -1 /\ (key = KEY_DOWN K \/ key = 115).
Proof.
  unfold loop_body.
  destruct (handle_key K st g key ck) as [[st1 g1|]|e]; cbn [bind];
    [| discriminate | discriminate].
  destruct ((key =? -1) || negb (key_in key (KEY_DOWN K) 115)) eqn:Ek.
  - assert (Hoff : forall g2, TetrisGame.soft_drop g2
                              = TetrisGame.soft_drop (TetrisGame.soft_drop_off g1) ->
                              TetrisGame.soft_drop g2 = true -> False).
    { intros g2 E H. rewrite E in H. discriminate H. }
    destruct (negb (StealthManager.hidden _)).
    + destruct (TetrisGame.step d _ _) as [g2|e] eqn:Es; [| discriminate].
      cbn [bind]. intros H Hs. injection H as _ <-.
      exfalso. apply (Hoff g2); [| exact Hs].
      apply (step_keeps_soft_drop _ _ _ _ Es).
    + intros H Hs. injection H as _ <-. discriminate Hs.
  - intros _ _. apply orb_false_iff in Ek. destruct Ek as [E1 E2].
    apply negb_false_iff in E2. unfold key_in in E2.
    apply orb_true_iff in E2. rewrite !Z.eqb_eq in E2.
    apply Z.eqb_neq in E1. auto.
Qed.

Lemma soft_drop_needs_down_key_witness :
  exists st' g',
    loop_body real_keys 3 StealthManager.init (Examples.fresh TetrisGame.kO) 258
              (MkClock 0 0 (1 # 100)) = Ok (Continue st' g')
    /\ TetrisGame.soft_drop g' = true
    /\ 258 <> -1 /\ (258 = KEY_DOWN real_keys \/ 258 = 115).
Proof.
  eexists. eexists.
  assert (E : loop_body real_keys 3 StealthManager.init
                (Examples.fresh TetrisGame.kO) 258 (MkClock 0 0 (1 # 100))
              = Ok (Continue StealthManager.init
                      (TetrisGame.soft_drop_on (Examples.fresh TetrisGame.kO))))
    by reflexivity.
  split; [exact E |]. split; [reflexivity |].
  exact (soft_drop_needs_down_key _ _ _ _ _ _ _ _ E eq_refl).
Defined.

(** X13: while the machine is hidden, an iteration with any key other than
    Enter, 'q' and Escape goes on with the machine still hidden and with the
    same game: no move, no rotation, no gravity step; at most the soft-drop
    flag is cleared. *)
Theorem hidden_freezes_game (K : curses_keys) (d : nat)
    (st : StealthManager.t) (g : TetrisGame.t) (key : Z) (ck : clock) :
  StealthManager.hidden st = true ->
  key_in key 10 13 = false ->
  key_in key 113 27 = false ->
  exists g',
    loop_body K d st g key ck
    = Ok (Continue (StealthManager.check_timers st (t_timers ck)) g')
    /\ StealthManager.hidden (StealthManager.check_timers st (t_timers ck)) = true
    /\ (g' = g \/ g' = TetrisGame.soft_drop_off g).
Proof.
  intros Hh He Hq.
  assert (Hk : handle_key K st g key ck = Ok (Continue st g)).
  { unfold handle_key. rewrite Hh, He, Hq. cbn [negb].
    destruct (negb (key =? -1)); [| reflexivity].
    destruct (key_in key (KEY_LEFT K) 97); [reflexivity |].
    destruct (key_in key (KEY_RIGHT K) 100); [reflexivity |].
    destruct (key_in key (KEY_UP K) 119); [reflexivity |].
    destruct (key_in key (KEY_DOWN K) 115); reflexivity. }
  destruct (check_timers_frame st (t_timers ck)) as [Fh _].
  unfold loop_body. rewrite Hk. cbn [bind]. rewrite Fh, Hh. cbn [negb].
  eexists. split; [reflexivity |]. split; [reflexivity |].
  destruct ((key =? -1) || negb (key_in key (KEY_DOWN K) 115)); auto.
Qed.

Lemma hidden_freezes_game_witness :
  exists g',
    loop_body real_keys 3 (fst (StealthManager.handle_enter StealthManager.init 0))
              (Examples.fresh TetrisGame.kO) 260 (MkClock 1 1 1)
    = Ok (Continue (StealthManager.check_timers
                      (fst (StealthManager.handle_enter StealthManager.init 0)) 1) g')
    /\ StealthManager.hidden
         (StealthManager.check_timers
            (fst (StealthManager.handle_enter StealthManager.init 0)) 1) = true
    /\ (g' = Examples.fresh TetrisGame.kO
        \/ g' = TetrisGame.soft_drop_off (Examples.fresh TetrisGame.kO)).
Proof.
  apply (hidden_freezes_game real_keys 3
           (fst (StealthManager.handle_enter StealthManager.init 0))
           (Examples.fresh TetrisGame.kO) 260 (MkClock 1 1 1)); reflexivity.
Defined.

Lemma handle_enter_actions (st : StealthManager.t) (now : Q) :
  snd (StealthManager.handle_enter st now) = "hide"%string
  \/ snd (StealthManager.handle_enter st now) = "panic"%string
  \/ snd (StealthManager.handle_enter st now) = "restore"%string.
Proof.
  unfold StealthManager.handle_enter.
  destruct (negb _); [destruct (negb _) | destruct (_ && _)]; auto.
Qed.

(** X16: an iteration ends the process exactly when the key reaches the
    Enter arm and [handle_enter] answers 'panic', or reaches the quit arm;
    no call on the game ends it. *)
Theorem loop_exits_on_panic_or_quit (K : curses_keys) (d : nat)
    (st : StealthManager.t) (g : TetrisGame.t) (key : Z) (ck : clock) :
  loop_body K d st g key ck = Ok Exit
  <-> (key =? -1) = false
      /\ key_in key (KEY_LEFT K) 97 = false
      /\ key_in key (KEY_RIGHT K) 100 = false
      /\ key_in key (KEY_UP K) 119 = false
      /\ key_in key (KEY_DOWN K) 115 = false
      /\ ((key_in key 10 13 = true
           /\ snd (StealthManager.handle_enter st (t_enter ck)) = "panic"%string)
          \/ (key_in key 10 13 = false /\ key_in key 113 27 = true)).
Proof.
  assert (Hbody : forall r, (do r0 <- r;
                     match r0 with
                     | Exit => Ok Exit
                     | Continue stealth game =>
                         let game0 :=
                           if (key =? -1) || negb (key_in key (KEY_DOWN K) 115)
                           then TetrisGame.soft_drop_off game else game in
                         let stealth0 :=
                           StealthManager.check_timers stealth (t_timers ck) in
                         if negb (StealthManager.hidden stealth0) then
                           do game' <- TetrisGame.step d game0 (t_step ck);
                           Ok (Continue stealth0 game')
                         else Ok (Continue stealth0 game0)
                     end) = Ok Exit <-> r = Ok Exit).
  { intros [[st1 g1|]|e]; cbn [bind]; cbv zeta.
    - destruct (negb _).
      + destruct (TetrisGame.step _ _ _); cbn [bind]; split; discriminate.
      + split; discriminate.
    - tauto.
    - split; discriminate. }
  unfold loop_body. rewrite Hbody. clear Hbody.
  unfold handle_key.
  destruct (key =? -1); cbn [negb].
  { split; [discriminate | intros (H & _); discriminate H]. }
  destruct (key_in key (KEY_LEFT K) 97).
  { split; [| intros (_ & H & _); discriminate H].
    destruct (negb _); [destruct (TetrisGame.move _ _) |]; discriminate. }
  destruct (key_in key (KEY_RIGHT K) 100).
  { split; [| intros (_ & _ & H & _); discriminate H].
    destruct (negb _); [destruct (TetrisGame.move _ _) |]; discriminate. }
  destruct (key_in key (KEY_UP K) 119).
  { split; [| intros (_ & _ & _ & H & _); discriminate H].
    destruct (negb _); [destruct (TetrisGame.rotate _) |]; discriminate. }
  destruct (key_in key (KEY_DOWN K) 115).
  { split; [| intros (_ & _ & _ & _ & H & _); discriminate H].
    destruct (negb _); discriminate. }
  destruct (key_in key 10 13).
  - destruct (handle_enter_actions st (t_enter ck)) as [Ea|[Ea|Ea]];
      destruct (StealthManager.handle_enter st (t_enter ck)) as [st1 action];
      cbn [snd] in Ea; subst action; cbn [String.eqb Ascii.eqb Bool.eqb];
      cbn [snd]; split; try discriminate;
      try (intros _; repeat split; left; split; reflexivity);
      intros (_ & _ & _ & _ & _ & [[_ H]|[H _]]); discriminate H.
  - destruct (key_in key 113 27).
    + split; [intros _; repeat split; right; split; reflexivity | reflexivity].
    + split; [discriminate |].
      intros (_ & _ & _ & _ & _ & [[H _]|[_ H]]); discriminate H.
Qed.

Lemma handle_key_keeps_invariant (K : curses_keys)
    (st : StealthManager.t) (g : TetrisGame.t) (key : Z) (ck : clock) :
  StealthManager.reachable st ->
  TetrisGame.invariant g ->
  handle_key K st g key ck = Ok Exit
  \/ exists st' g',
       handle_key K st g key ck = Ok (Continue st' g')
       /\ StealthManager.reachable st' /\ TetrisGame.invariant g'.
Proof.
  intros Hr Hinv.
  assert (Hsame : forall r, r = Ok (Continue st g) ->
            r = Ok Exit
            \/ exists st' g', r = Ok (Continue st' g')
                 /\ StealthManager.reachable st' /\ TetrisGame.invariant g').
  { intros r ->. right. exists st, g. auto. }
  assert (Hgame : forall r : res TetrisGame.t,
            (exists g1, r = Ok g1 /\ TetrisGame.invariant g1) ->
            (do game' <- r; Ok (Continue st game')) = Ok Exit
            \/ exists st' g',
                 (do game' <- r; Ok (Continue st game')) = Ok (Continue st' g')
                 /\ StealthManager.reachable st' /\ TetrisGame.invariant g').
  { intros r (g1 & -> & H1). right. exists st, g1. auto. }
  unfold handle_key.
  destruct (negb (key =? -1)); [| apply Hsame; reflexivity].
  destruct (key_in key (KEY_LEFT K) 97).
  { destruct (negb _); [| apply Hsame; reflexivity].
    apply Hgame, move_invariant, Hinv. }
  destruct (key_in key (KEY_RIGHT K) 100).
  { destruct (negb _); [| apply Hsame; reflexivity].
    apply Hgame, move_invariant, Hinv. }
  destruct (key_in key (KEY_UP K) 119).
  { destruct (negb _); [| apply Hsame; reflexivity].
    apply Hgame, rotate_keeps_invariant, Hinv. }
  destruct (key_in key (KEY_DOWN K) 115).
  { destruct (negb _); [| apply Hsame; reflexivity].
    right. eexists. eexists. split; [reflexivity |].
    split; [exact Hr | apply set_soft_drop_invariant, Hinv]. }
  destruct (key_in key 10 13).
  { pose proof (StealthManager.reach_call st (StealthManager.Enter (t_enter ck)) Hr)
      as Hr1.
    cbn [StealthManager.run_call] in Hr1.
    destruct (StealthManager.handle_enter st (t_enter ck)) as [st1 action].
    cbn [fst] in Hr1.
    destruct (String.eqb action "hide");
      [right; exists st1, g; auto |].
    destruct (String.eqb action "panic"); [left; reflexivity |].
    right. exists st1, g. auto. }
  destruct (key_in key 113 27); [left; reflexivity |].
  apply Hsame. reflexivity.
Qed.

(** X14: from a reachable stealth state and a game that satisfies the
    invariant, an iteration of the main loop raises nothing: it either ends
    the process or goes on with a reachable stealth state and a game that
    satisfies the invariant again. *)
Theorem loop_body_keeps_invariant (K : curses_keys) (d : nat)
    (st : StealthManager.t) (g : TetrisGame.t) (key : Z) (ck : clock) :
  StealthManager.reachable st ->
  TetrisGame.invariant g ->
  loop_body K (3 + d) st g key ck = Ok Exit
  \/ exists st' g',
       loop_body K (3 + d) st g key ck = Ok (Continue st' g')
       /\ StealthManager.reachable st' /\ TetrisGame.invariant g'.
Proof.
  intros Hr Hinv. unfold loop_body.
  destruct (handle_key_keeps_invariant K st g key ck Hr Hinv)
    as [->|(st1 & g1 & -> & Hr1 & Hinv1)]; [left; reflexivity |].
  right. cbn [bind]. cbv zeta.
  set (g2 := if (key =? -1) || negb (key_in key (KEY_DOWN K) 115)
             then TetrisGame.soft_drop_off g1 else g1).
  assert (Hinv2 : TetrisGame.invariant g2).
  { unfold g2. destruct (_ || _); [apply set_soft_drop_invariant |]; exact Hinv1. }
  pose proof (StealthManager.reach_call st1 (StealthManager.Timers (t_timers ck)) Hr1)
    as Hr2.
  cbn [StealthManager.run_call] in Hr2.
  fold g2.
  destruct (StealthManager.hidden (StealthManager.check_timers st1 (t_timers ck)));
    cbn [negb].
  - eexists. eexists. split; [reflexivity |]. auto.
  - destruct (step_invariant d g2 (t_step ck) Hinv2) as (g3 & E & Hinv3).
    rewrite E. cbn [bind]. eexists. eexists. split; [reflexivity |]. auto.
Qed.

Lemma loop_body_keeps_invariant_witness :
  loop_body real_keys 3 StealthManager.init (Examples.fresh TetrisGame.kT) 119
            (MkClock 0 0 1) = Ok Exit
  \/ exists st' g',
       loop_body real_keys 3 StealthManager.init (Examples.fresh TetrisGame.kT) 119
                 (MkClock 0 0 1) = Ok (Continue st' g')
       /\ StealthManager.reachable st' /\ TetrisGame.invariant g'.
Proof.
  exact (loop_body_keeps_invariant real_keys 0 StealthManager.init
           (Examples.fresh TetrisGame.kT) 119 (MkClock 0 0 1)
           StealthManager.reach_init (fresh_invariant TetrisGame.kT)).
Defined.

End MainLoop.
